(** * A shallow embedding of [2048game.py]: the [Tile] and [Board] classes.

    The grid is the Python list of lists [self.board]; every subscript goes
    through [py_index] / [py_setitem], which raise [IndexError] exactly when
    Python does.  The two [while] loops of [_compact] and [move] take a fuel
    argument that bounds the number of times their condition is evaluated;
    theorems about them state how much fuel is enough.  The two random draws
    of [spawn] enter as an explicit argument. *)

From Stdlib Require Import ZArith Lia Bool.
From stdpp Require Import base list.

Local Open Scope Z_scope.

(** ** Outcomes of a Python call *)

Inductive exn : Type := IndexError.

Inductive result (A : Type) : Type :=
| Ok (a : A)
| Raise (e : exn)
| OutOfFuel.
Arguments Ok {A} a.
Arguments Raise {A} e.
Arguments OutOfFuel {A}.

(** Sequencing: [x ← m; k] runs [k] on the value of [m], and an exception
    or an exhausted loop in [m] ends the whole computation. *)
#[global] Instance result_bind : MBind result := fun A B k m =>
  match m with
  | Ok a => k a
  | Raise e => Raise e
  | OutOfFuel => OutOfFuel
  end.

(** [f <$> m]: [f] on the value of [m]. *)
#[global] Instance result_fmap : FMap result := fun A B f m =>
  match m with
  | Ok a => Ok (f a)
  | Raise e => Raise e
  | OutOfFuel => OutOfFuel
  end.

(** What a Python function hands back when the claim is about the returned
    object itself: a bool, or [None] when control falls off the end. *)
Inductive pyval : Type :=
| PyNone
| PyBool (b : bool).

(** ** Python sequences *)

(** [l[i]]: a negative index counts from the end, anything outside
    [-len(l) <= i < len(l)] raises. *)
Definition py_norm (len : nat) (i : Z) : option nat :=
  let k := if i <? 0 then i + Z.of_nat len else i in
  if (0 <=? k) && (k <? Z.of_nat len) then Some (Z.to_nat k) else None.

Definition py_index {A} (l : list A) (i : Z) : result A :=
  match py_norm (length l) i with
  | Some k => match l !! k with Some a => Ok a | None => Raise IndexError end
  | None => Raise IndexError
  end.

(** [l[i] = v] *)
Definition py_setitem {A} (l : list A) (i : Z) (v : A) : result (list A) :=
  match py_norm (length l) i with
  | Some k => Ok (<[k := v]> l)
  | None => Raise IndexError
  end.

(** [range(n)] *)
Definition range (n : Z) : list Z := seqZ 0 n.

(** [for a in l: s = body(a, s)] *)
Fixpoint for_each {A S} (l : list A) (body : A -> S -> result S) (s : S)
  : result S :=
  match l with
  | [] => Ok s
  | a :: l' => s' ← body a s; for_each l' body s'
  end.

(** A [for] loop whose body may [return]: [Some r] is a [return r] that was
    executed, [None] the loop running to its end. *)
Fixpoint for_return {A R} (l : list A) (body : A -> result (option R))
  : result (option R) :=
  match l with
  | [] => Ok None
  | a :: l' =>
      r ← body a;
      match r with
      | Some v => Ok (Some v)
      | None => for_return l' body
      end
  end.

(** ** class Tile *)

Record Tile : Type := mkTile { value : Z }.

(** [Tile.__init__(self, value=2)] *)
Definition Tile_default : Tile := mkTile 2.

(** [Tile.merge]: the tile [self] after the call, and the returned bool. *)
Definition merge (self other : Tile) : Tile * bool :=
  if value self =? value other then (mkTile (value self * 2), true)
  else (self, false).

(** ** Positions *)

Definition pos : Type := Z * Z.

Definition _move_position (position direction : pos) : pos :=
  (position.1 + direction.1, position.2 + direction.2).

(** ** class Board *)

Record Board : Type := mkBoard {
  width : Z;
  height : Z;
  board : list (list (option Tile))
}.

(** [Board.__init__]: [height] inner lists of [width] cells. *)
Definition Board_init (w h : Z) : Board :=
  mkBoard w h (replicate (Z.to_nat h) (replicate (Z.to_nat w) None)).

Definition with_board (self : Board) (g : list (list (option Tile))) : Board :=
  mkBoard (width self) (height self) g.

Definition _is_valid (self : Board) (position : pos) : bool :=
  (0 <=? position.1) && (position.1 <? width self) &&
  ((0 <=? position.2) && (position.2 <? height self)).

Definition _find_starts (self : Board) (direction : pos) : list pos :=
  let side := (Z.max 0 (direction.1 * (width self - 1)),
               Z.max 0 (direction.2 * (height self - 1))) in
  if direction.1 =? 0 then (fun x => (x, side.2)) <$> range (width self)
  else if direction.2 =? 0 then (fun y => (side.1, y)) <$> range (height self)
  else [].

(** [self.board[position[0]][position[1]]] *)
Definition _get (self : Board) (position : pos) : result (option Tile) :=
  row ← py_index (board self) position.1;
  py_index row position.2.

(** [self.board[position[0]][position[1]] = tile]: the inner list is
    fetched, updated in place, and is still the element of the outer list. *)
Definition _set (self : Board) (position : pos) (tile : option Tile)
  : result Board :=
  row ← py_index (board self) position.1;
  row' ← py_setitem row position.2 tile;
  g ← py_setitem (board self) position.1 row';
  Ok (with_board self g).

(** The [while] loop of [_compact] for one tile. *)
Fixpoint compact_while (fuel : nat) (direction : pos) (self : Board)
    (curr_pos next_pos : pos) (something_changed : bool)
  : result (Board * bool) :=
  match fuel with
  | O => OutOfFuel
  | S fuel' =>
      if _is_valid self next_pos then
        nt ← _get self next_pos;
        match nt with
        | None =>
            t ← _get self curr_pos;
            self1 ← _set self next_pos t;
            self2 ← _set self1 curr_pos None;
            compact_while fuel' direction self2 next_pos
              (_move_position next_pos direction) true
        | Some _ => Ok (self, something_changed)
        end
      else Ok (self, something_changed)
  end.

(** The body of the two inner [for] loops of [_compact]. *)
Definition compact_cell (fuel : nat) (direction : pos) (x y : Z)
    (st : Board * bool) : result (Board * bool) :=
  t ← _get st.1 (x, y);
  match t with
  | None => Ok st
  | Some _ =>
      compact_while fuel direction st.1 (x, y)
        (_move_position (x, y) direction) st.2
  end.

(** One pass over the grid: the loops over [x] and [y]. *)
Definition compact_pass (fuel : nat) (direction : pos) (w h : Z)
    (st : Board * bool) : result (Board * bool) :=
  for_each (range w)
    (fun x => for_each (range h) (fun y => compact_cell fuel direction x y))
    st.

(** [_compact]; [width] and [height] are never assigned after [__init__],
    so the three ranges are those of the board on entry. *)
Definition _compact (fuel : nat) (self : Board) (direction : pos)
  : result (Board * bool) :=
  for_each (range (Z.max (width self) (height self)))
    (fun _ => compact_pass fuel direction (width self) (height self))
    (self, false).

(** The two draws of one [spawn] call: [random.choice(options)] returns
    [options[pick mod len(options)]], and [below_tenth] is the outcome of
    [random.random() < 0.1]. *)
Record draws : Type := mkDraws { pick : nat; below_tenth : bool }.

Definition random_choice (rnd : draws) (options : list pos) : pos :=
  nth (pick rnd mod length options)%nat options (0, 0).

(** The scan of [spawn] that collects the empty cells. *)
Definition spawn_options (self : Board) : result (list pos) :=
  for_each (range (width self))
    (fun x => for_each (range (height self))
       (fun y options =>
          t ← _get self (x, y);
          match t with
          | None => Ok (options ++ [(x, y)])
          | Some _ => Ok options
          end))
    [].

(** [spawn]: the board after the call and the returned object.  The
    function has no [return] after the placement. *)
Definition spawn (rnd : draws) (self : Board) : result (Board * pyval) :=
  options ← spawn_options self;
  if (length options =? 0)%nat then Ok (self, PyBool false)
  else
    let xy := random_choice rnd options in
    self1 ← _set self xy (Some Tile_default);
    if below_tenth rnd then
      self2 ← _set self1 xy (Some (mkTile 4));
      Ok (self2, PyNone)
    else Ok (self1, PyNone).

(** The [while] loop of [move] for one start cell.  [first_tile.merge]
    mutates the tile object held by the cell [curr_pos]; no other cell
    holds that object, so the mutation is a write to that cell. *)
Fixpoint merge_while (fuel : nat) (inverse : pos) (self : Board)
    (curr_pos next_pos : pos) (something_changed : bool)
  : result (Board * bool) :=
  match fuel with
  | O => OutOfFuel
  | S fuel' =>
      if _is_valid self next_pos then
        first_tile ← _get self curr_pos;
        second_tile ← _get self next_pos;
        match first_tile, second_tile with
        | Some ft, Some st =>
            let '(ft', merged) := merge ft st in
            if merged then
              self1 ← _set self curr_pos (Some ft');
              self2 ← _set self1 next_pos None;
              merge_while fuel' inverse self2 next_pos
                (_move_position next_pos inverse) true
            else
              merge_while fuel' inverse self next_pos
                (_move_position next_pos inverse) something_changed
        | _, _ =>
            merge_while fuel' inverse self next_pos
              (_move_position next_pos inverse) something_changed
        end
      else Ok (self, something_changed)
  end.

(** The [for start in starts] loop of [move]. *)
Definition merge_pass (fuel : nat) (self : Board) (direction : pos)
    (something_changed : bool) : result (Board * bool) :=
  let inverse := (- direction.1, - direction.2) in
  for_each (_find_starts self direction)
    (fun start st =>
       merge_while fuel inverse st.1 start (_move_position start inverse) st.2)
    (self, something_changed).

(** [move]: the board after the call (the method returns nothing). *)
Definition move (fuel : nat) (rnd : draws) (self : Board) (direction : pos)
  : result Board :=
  '(self1, changed1) ← _compact fuel self direction;
  '(self2, changed2) ← merge_pass fuel self1 direction changed1;
  '(self3, changed3) ← _compact fuel self2 direction;
  if changed3 || changed2 then
    '(self4, _) ← spawn rnd self3; Ok self4
  else Ok self3.

(** [check_game_over]: the body never mentions [self]; every access goes
    through the module-level name [board], here the first argument. *)
Definition check_game_over (board_global : Board) (self : Board)
  : result bool :=
  r ← for_return (range (width board_global)) (fun x =>
         for_return (range (height board_global)) (fun y =>
           tile ← _get board_global (x, y);
           match tile with
           | None => Ok (Some false)
           | Some t =>
               for_return [(0, 1); (1, 0); (0, -1); (-1, 0)] (fun direction =>
                 let next_pos := _move_position (x, y) direction in
                 if negb (_is_valid board_global next_pos) then Ok None
                 else
                   next_tile ← _get board_global next_pos;
                   match next_tile with
                   | None => Ok (Some false)
                   | Some nt =>
                       if value t =? value nt then Ok (Some false)
                       else Ok None
                   end)
           end));
  Ok (match r with Some v => v | None => true end).

(** [check_win]: iterates over the lists themselves, no subscripts. *)
Definition check_win (self : Board) : result bool :=
  r ← for_return (board self) (fun row =>
         for_return row (fun tile =>
           match tile with
           | Some t => if value t =? 2048 then Ok (Some true) else Ok None
           | None => Ok None
           end));
  Ok (match r with Some v => v | None => false end).

(** ** The program around the class *)


(** [board = Board(4, 4); board.spawn(); board.spawn()]: the board at the
    start of the program, and after a restart. *)
Definition new_board (rnd1 rnd2 : draws) : result Board :=
  '(board1, _) ← spawn rnd1 (Board_init 4 4);
  '(board2, _) ← spawn rnd2 board1;
  Ok board2.



(** ** Boards written out

    A grid as rows of numbers, [0] for an empty cell; [rows] is the Python
    list [self.board], so row [x] holds [board[x][0]], [board[x][1]], ... *)

Definition cells (rows : list (list Z)) : list (list (option Tile)) :=
  map (map (fun v => if v =? 0 then None else Some (mkTile v))) rows.

Definition board_of (n : Z) (rows : list (list Z)) : Board :=
  mkBoard n n (cells rows).

(** * Vocabulary of the theorems *)

(** The shape [__init__] builds and every method keeps: [height] inner
    lists of [width] cells. *)
Definition shaped (b : Board) : Prop :=
  length (board b) = Z.to_nat (height b) ∧
  Forall (fun row => length row = Z.to_nat (width b)) (board b).

Definition square (b : Board) : Prop := width b = height b.

(** [board[x][y]] read without bounds check ([None] outside the lists). *)
Definition cell (b : Board) (p : pos) : option Tile :=
  match board b !! Z.to_nat p.1 with
  | Some row => match row !! Z.to_nat p.2 with Some c => c | None => None end
  | None => None
  end.

(** The board with cell [p] overwritten. *)
Definition put (b : Board) (p : pos) (t : option Tile) : Board :=
  with_board b
    (<[Z.to_nat p.1 :=
         <[Z.to_nat p.2 := t]> (default [] (board b !! Z.to_nat p.1))]>
       (board b)).

Definition occ (c : option Tile) : nat :=
  match c with Some _ => 1%nat | None => 0%nat end.

(** Number of occupied cells. *)
Definition count_tiles (b : Board) : nat :=
  sum_list_with (fun row => length (omap id row)) (board b).

(** The cells in the order the nested [for x ... for y ...] loops visit. *)
Definition scan (w h : Z) : list pos := list_prod (range w) (range h).

(** A tile at [p] cannot slide: no tile there, or the cell one step along
    [d] is off the board or occupied. *)
Definition stuck_at (b : Board) (d p : pos) : Prop :=
  cell b p = None ∨ _is_valid b (_move_position p d) = false ∨
  cell b (_move_position p d) ≠ None.

Definition all_stuck (b : Board) (d : pos) : Prop :=
  forall p, _is_valid b p = true -> stuck_at b d p.

(** How many more steps along [d] a tile at [p] can take at most before
    it leaves an [n] by [n] board. *)
Definition reach (n : Z) (d p : pos) : Z :=
  if 0 <? d.1 then n - p.1
  else if d.1 <? 0 then p.1 + 1
  else if 0 <? d.2 then n - p.2
  else if d.2 <? 0 then p.2 + 1
  else 0.

Definition unit_dir (d : pos) : Prop :=
  d = (0, -1) ∨ d = (0, 1) ∨ d = (-1, 0) ∨ d = (1, 0).

(** Along a unit direction [d] an [n] by [n] grid falls into [n] lines.
    [at_lk n d j k] is the cell of line [j] that has [k] cells between it
    and the edge the tiles move to; one step along [d] lowers the depth
    [k] by one. *)
Definition at_lk (n : Z) (d : pos) (j k : Z) : pos :=
  if d.1 =? 0 then (j, if d.2 <? 0 then k else n - 1 - k)
  else (if d.1 <? 0 then k else n - 1 - k, j).

Definition line_of (d p : pos) : Z := if d.1 =? 0 then p.1 else p.2.

Definition depth (n : Z) (d p : pos) : Z :=
  if d.1 =? 0 then (if d.2 <? 0 then p.2 else n - 1 - p.2)
  else (if d.1 <? 0 then p.1 else n - 1 - p.1).

(** The cell of line [j] at depth [k]. *)
Definition lc (b : Board) (d : pos) (j k : Z) : option Tile :=
  cell b (at_lk (width b) d j k).

(** What the visit of the cell at depth [k] of line [j] does: nothing,
    or the tile there slides to depth [k'], over empty cells, up to
    the edge or the next tile. *)
Definition slid (d : pos) (b b' : Board) (j k : Z) : Prop :=
  (b' = b ∧ (lc b d j k = None ∨ k = 0 ∨ lc b d j (k - 1) ≠ None)) ∨
  (exists t k',
     lc b d j k = Some t ∧ 0 <= k' < k ∧
     (forall i, k' <= i < k -> lc b d j i = None) ∧
     (k' = 0 ∨ lc b d j (k' - 1) ≠ None) ∧
     forall j' i, 0 <= j' < width b -> 0 <= i < width b ->
       lc b' d j' i =
       if decide (j' = j ∧ i = k') then Some t
       else if decide (j' = j ∧ i = k) then None
       else lc b d j' i).

(** Depths below [i] are final: an empty cell there has only empty
    cells behind it. *)
Definition settled (d : pos) (b : Board) (i : Z) : Prop :=
  forall j k, 0 <= j < width b -> 0 <= k < width b -> k < i ->
    lc b d j k = None ->
    forall k2, k < k2 < width b -> lc b d j k2 = None.

(** During a pass at level [i]: an empty cell at depth [i] has nothing
    behind it, or the nearest tile behind it is still to be visited. *)
Definition pending (d : pos) (b : Board) (i : Z) (rest : list pos) : Prop :=
  forall j, 0 <= j < width b -> 0 <= i < width b ->
    lc b d j i = None ->
    (forall k2, i < k2 < width b -> lc b d j k2 = None) ∨
    (exists k2, i < k2 < width b ∧ lc b d j k2 ≠ None ∧
       (forall k3, i < k3 < k2 -> lc b d j k3 = None) ∧
       In (at_lk (width b) d j k2) rest).

(** Line [j] read from the edge the tiles move to, and the tiles on it in
    that order. *)
Definition line (b : Board) (d : pos) (j : Z) : list (option Tile) :=
  lc b d j <$> range (width b).

Definition tiles (l : list (option Tile)) : list Tile := omap id l.

(** The merge walk of [move] on one line, as a function on the list of
    its cells: [first] is the cell under [curr_pos], [rest] the cells the
    walk has still to reach. *)
Fixpoint walk_from (first : option Tile) (rest : list (option Tile))
  : list (option Tile) :=
  match rest with
  | [] => [first]
  | second :: rest' =>
      match first, second with
      | Some ft, Some st =>
          if value ft =? value st
          then Some (mkTile (value ft * 2)) :: walk_from None rest'
          else first :: walk_from second rest'
      | _, _ => first :: walk_from second rest'
      end
  end.

Definition walk_line (l : list (option Tile)) : list (option Tile) :=
  match l with
  | [] => []
  | first :: rest => walk_from first rest
  end.

(** A line of [n] cells: the tiles [ts] packed against the edge. *)
Definition pad (n : Z) (ts : list Tile) : list (option Tile) :=
  (Some <$> ts) ++ replicate (Z.to_nat n - length ts) None.

(** The rule of the game for a line of tiles, nearest the edge first:
    two equal neighbours become one tile of twice the value, and the
    result of a merge is not compared again. *)
Fixpoint merge_pairs (ts : list Tile) : list Tile :=
  match ts with
  | [] => []
  | a :: rest =>
      match rest with
      | [] => [a]
      | b :: rest' =>
          if value a =? value b
          then mkTile (value a * 2) :: merge_pairs rest'
          else a :: merge_pairs rest
      end
  end.

(** [once_merged before after]: every tile of [after] is a tile of
    [before] or the merge of two equal neighbours of [before], and every
    tile of [before] goes into exactly one tile of [after]. *)
Inductive once_merged : list Tile -> list Tile -> Prop :=
| once_nil : once_merged [] []
| once_keep (a : Tile) (l l' : list Tile) :
    once_merged l l' -> once_merged (a :: l) (a :: l')
| once_pair (a b : Tile) (l l' : list Tile) :
    value a = value b -> once_merged l l' ->
    once_merged (a :: b :: l) (mkTile (value a * 2) :: l').

Definition is_empty (b : Board) (p : pos) : bool :=
  match cell b p with None => true | Some _ => false end.

(** The empty cells, in the order [spawn] collects them. *)
Definition empties (b : Board) : list pos :=
  List.filter (is_empty b) (scan (width b) (height b)).

(** [b'] is [b] with one new tile of value 2 or 4 on a cell that was
    empty. *)
Definition spawned (b b' : Board) : Prop :=
  exists p v, _is_valid b p = true ∧ cell b p = None ∧ (v = 2 ∨ v = 4) ∧
              b' = put b p (Some (mkTile v)).

(** The three steps of [move] that come before the spawn: the board they
    leave and the value of [something_changed]. *)
Definition move_steps (fuel : nat) (self : Board) (direction : pos)
  : result (Board * bool) :=
  '(self1, changed1) ← _compact fuel self direction;
  '(self2, changed2) ← merge_pass fuel self1 direction changed1;
  '(self3, changed3) ← _compact fuel self2 direction;
  Ok (self3, changed3 || changed2).

(** The tile at [p], if any, has an empty cell of the board one step
    along [d]. *)
Definition can_slide (b : Board) (d p : pos) : bool :=
  match cell b p with
  | Some _ =>
      _is_valid b (_move_position p d) && is_empty b (_move_position p d)
  | None => false
  end.

(** The tile at [p] and the tile one step along [d] have equal values. *)
Definition can_merge (b : Board) (d p : pos) : bool :=
  match cell b p, cell b (_move_position p d) with
  | Some t1, Some t2 =>
      _is_valid b (_move_position p d) && (value t1 =? value t2)
  | _, _ => false
  end.

(** No tile can slide along [d] and no two neighbours along [d] are
    equal. *)
Definition idle (b : Board) (d : pos) : bool :=
  forallb (fun p => negb (can_slide b d p) && negb (can_merge b d p))
    (scan (width b) (height b)).

Definition is_2048 (c : option Tile) : bool :=
  match c with Some t => value t =? 2048 | None => false end.

Definition orthogonal : list pos := [(0, 1); (1, 0); (0, -1); (-1, 0)].

(** What [check_game_over] tests at one cell of the board it reads. *)
Definition blocked_cell (g : Board) (p : pos) : bool :=
  match cell g p with
  | None => false
  | Some t =>
      forallb (fun direction =>
                 let q := _move_position p direction in
                 negb (_is_valid g q) ||
                 match cell g q with
                 | None => false
                 | Some nt => negb (value t =? value nt)
                 end)
        orthogonal
  end.

(** The condition of the specification, for the board [g]: every cell is
    occupied, and no occupied cell has an orthogonal neighbour on the
    board that is empty or holds an equal value. *)
Definition game_over (g : Board) : Prop :=
  (forall p, _is_valid g p = true -> cell g p ≠ None) ∧
  (forall p direction t,
     _is_valid g p = true -> In direction orthogonal ->
     _is_valid g (_move_position p direction) = true ->
     cell g p = Some t ->
     exists nt, cell g (_move_position p direction) = Some nt ∧
                value t ≠ value nt).

(** Boards used as concrete inputs. *)
Definition row_of_twos : Board :=
  board_of 4 [[2; 0; 0; 0]; [2; 0; 0; 0]; [2; 0; 0; 0]; [2; 0; 0; 0]].

Definition packed_board : Board :=
  board_of 4 [[2; 4; 0; 0]; [4; 2; 0; 0]; [0; 0; 0; 0]; [8; 0; 0; 0]].

Definition corner_tile : Board :=
  board_of 4 [[2; 0; 0; 0]; [0; 0; 0; 0]; [0; 0; 0; 0]; [0; 0; 0; 0]].

Definition deadlock : Board := board_of 2 [[2; 4]; [4; 2]].

Definition past_2048 : Board := board_of 2 [[4096; 0]; [0; 0]].

(** A computation that ends: it returns or raises. *)
Definition ends {A} (m : result A) : Prop := m ≠ OutOfFuel.

(** ** Weights and invariants *)

Definition sum_Z (l : list Z) : Z := foldr Z.add 0 l.

(** The sum, over all cells of the lists, of a number [w] read off each
    cell.  Different [w] count the tiles, add their values, or count the
    tiles of one value. *)
Definition weight (w : option Tile -> Z) (b : Board) : Z :=
  sum_Z ((fun row => sum_Z (w <$> row)) <$> board b).

Definition cell_value (c : option Tile) : Z :=
  match c with Some t => value t | None => 0 end.

(** Sum of the values of the tiles. *)
Definition sum_values (b : Board) : Z := weight cell_value b.

(** [w] does not see a merge: the doubled tile and the emptied cell weigh
    what the two equal tiles weighed. *)
Definition merge_neutral (w : option Tile -> Z) : Prop :=
  forall a c : Tile, value a = value c ->
    w (Some (mkTile (value a * 2))) + w None = w (Some a) + w (Some c).

(** [i] as Python reads it in a subscript of a list of length [n]. *)
Definition wrap (n i : Z) : Z := if i <? 0 then i + n else i.

(** Every tile on the board has a value with property [P]. *)
Definition all_tiles (P : Z -> Prop) (b : Board) : Prop :=
  forall p t, _is_valid b p = true -> cell b p = Some t -> P (value t).

Definition power_of_two (v : Z) : Prop := exists k : Z, 0 < k ∧ v = 2 ^ k.



(** ** Slides along any direction *)







(** * Properties *)

(** * The grid as a function of positions *)

Lemma omap_id_length {A} (l : list (option A)) :
  (length (omap id l) <= length l)%nat.
Proof. induction l as [|[a|] l IH]; cbn in *; lia. Qed.

Lemma bind_Ok {A B} (m : result A) (k : A -> result B) (v : B) :
  mbind k m = Ok v -> exists a, m = Ok a ∧ k a = Ok v.
Proof. destruct m; simpl; intros H; try discriminate; eauto. Qed.

Lemma py_norm_nonneg (len : nat) (i : Z) :
  0 <= i < Z.of_nat len -> py_norm len i = Some (Z.to_nat i).
Proof.
  intros H. unfold py_norm.
  destruct (Z.ltb_spec i 0); [lia|].
  destruct (Z.leb_spec 0 i); [|lia].
  destruct (Z.ltb_spec i (Z.of_nat len)); [done|lia].
Qed.

Lemma py_norm_high (len : nat) (i : Z) :
  Z.of_nat len <= i -> py_norm len i = None.
Proof.
  intros H. unfold py_norm.
  destruct (Z.ltb_spec i 0); [lia|].
  destruct (Z.leb_spec 0 i); [|lia].
  destruct (Z.ltb_spec i (Z.of_nat len)); [lia|done].
Qed.

Lemma py_index_nonneg {A} (l : list A) (i : Z) (a : A) :
  0 <= i -> l !! Z.to_nat i = Some a -> py_index l i = Ok a.
Proof.
  intros Hi Hl. unfold py_index.
  rewrite py_norm_nonneg, Hl; [done|].
  apply lookup_lt_Some in Hl. lia.
Qed.

Lemma py_index_high {A} (l : list A) (i : Z) :
  Z.of_nat (length l) <= i -> py_index l i = Raise IndexError.
Proof. intros H. unfold py_index. by rewrite py_norm_high. Qed.

Lemma py_setitem_nonneg {A} (l : list A) (i : Z) (v : A) :
  0 <= i < Z.of_nat (length l) ->
  py_setitem l i v = Ok (<[Z.to_nat i := v]> l).
Proof. intros H. unfold py_setitem. by rewrite py_norm_nonneg. Qed.

Lemma is_valid_spec (b : Board) (p : pos) :
  _is_valid b p = true <-> 0 <= p.1 < width b ∧ 0 <= p.2 < height b.
Proof.
  unfold _is_valid. rewrite !andb_true_iff, !Z.leb_le, !Z.ltb_lt. lia.
Qed.

Lemma is_valid_false (b : Board) (p : pos) :
  _is_valid b p = false <-> ¬ (0 <= p.1 < width b ∧ 0 <= p.2 < height b).
Proof.
  rewrite <- is_valid_spec.
  destruct (_is_valid b p); split; try done; intros H; by destruct H.
Qed.

Section grid.
Context (b : Board) (Hshape : shaped b) (Hsq : square b).

Lemma valid_row (p : pos) :
    _is_valid b p = true ->
    exists row, board b !! Z.to_nat p.1 = Some row ∧
                length row = Z.to_nat (width b) ∧
                (Z.to_nat p.2 < length row)%nat.
  Proof.
    intros Hv%is_valid_spec. destruct Hshape as [Hlen Hrows].
    unfold square in Hsq.
    destruct (lookup_lt_is_Some_2 (board b) (Z.to_nat p.1)) as [row Hrow];
      [lia|].
    exists row. split; [done|].
    assert (length row = Z.to_nat (width b)) as Hr.
    { eapply (proj1 (Forall_lookup _ _) Hrows); eauto. }
    split; [done|lia].
  Qed.

Lemma get_valid (p : pos) :
    _is_valid b p = true -> _get b p = Ok (cell b p).
  Proof.
    intros Hv. destruct (valid_row p Hv) as (row & Hrow & Hlen & Hy).
    apply is_valid_spec in Hv.
    destruct (lookup_lt_is_Some_2 row (Z.to_nat p.2) Hy) as [c Hc].
    unfold _get, cell. rewrite Hrow, Hc.
    rewrite (py_index_nonneg _ _ row) by (done || lia). simpl.
    by rewrite (py_index_nonneg _ _ c) by (done || lia).
  Qed.

Lemma set_valid (p : pos) (t : option Tile) :
    _is_valid b p = true -> _set b p t = Ok (put b p t).
  Proof.
    intros Hv. destruct (valid_row p Hv) as (row & Hrow & Hlen & Hy).
    apply is_valid_spec in Hv.
    unfold _set, put. rewrite Hrow.
    rewrite (py_index_nonneg _ _ row) by (done || lia). simpl.
    rewrite py_setitem_nonneg by lia. simpl.
    rewrite py_setitem_nonneg; [done|].
    apply lookup_lt_Some in Hrow. lia.
  Qed.

Lemma put_width (p : pos) (t : option Tile) : width (put b p t) = width b.
  Proof. done. Qed.

Lemma put_height (p : pos) (t : option Tile) : height (put b p t) = height b.
  Proof. done. Qed.

Lemma put_shaped (p : pos) (t : option Tile) : shaped (put b p t).
  Proof.
    destruct Hshape as [Hlen Hrows]. split; simpl.
    - by rewrite length_insert.
    - destruct (board b !! Z.to_nat p.1) as [row|] eqn:Hrow; simpl.
      + apply Forall_insert; [done|]. rewrite length_insert.
        eapply (proj1 (Forall_lookup _ _) Hrows); eauto.
      + rewrite list_insert_ge; [done|]. by apply lookup_ge_None.
  Qed.

Lemma put_square (p : pos) (t : option Tile) : square (put b p t).
  Proof. done. Qed.

Lemma cell_put_eq (p : pos) (t : option Tile) :
    _is_valid b p = true -> cell (put b p t) p = t.
  Proof.
    intros Hv. destruct (valid_row p Hv) as (row & Hrow & Hlen & Hy).
    unfold cell, put. simpl. rewrite Hrow. simpl.
    rewrite list_lookup_insert_eq by (by eapply lookup_lt_Some).
    by rewrite list_lookup_insert_eq.
  Qed.

Lemma cell_put_ne (p q : pos) (t : option Tile) :
    _is_valid b p = true -> _is_valid b q = true -> q ≠ p ->
    cell (put b p t) q = cell b q.
  Proof.
    intros Hp Hq Hne. destruct (valid_row p Hp) as (row & Hrow & Hlen & Hy).
    apply is_valid_spec in Hp. apply is_valid_spec in Hq.
    unfold cell, put. simpl. rewrite Hrow. simpl.
    destruct (decide (Z.to_nat q.1 = Z.to_nat p.1)) as [Heq|Hx].
    - rewrite Heq, list_lookup_insert_eq by (by eapply lookup_lt_Some).
      rewrite Hrow. rewrite list_lookup_insert_ne; [done|].
      intros Hy'. apply Hne. destruct p, q; simpl in *. f_equal; lia.
    - by rewrite list_lookup_insert_ne.
  Qed.

Lemma cell_put (p q : pos) (t : option Tile) :
    _is_valid b p = true -> _is_valid b q = true ->
    cell (put b p t) q = if decide (q = p) then t else cell b q.
  Proof.
    intros Hp Hq. case_decide as Heq.
    - subst. by apply cell_put_eq.
    - by apply cell_put_ne.
  Qed.

Lemma is_valid_put (p q : pos) (t : option Tile) :
    _is_valid (put b p t) q = _is_valid b q.
  Proof. done. Qed.

Lemma row_count_insert (row : list (option Tile)) (i : nat) (c t : option Tile) :
    row !! i = Some c ->
    (length (omap id (<[i := t]> row)) + occ c =
     length (omap id row) + occ t)%nat.
  Proof.
    intros Hc. rewrite insert_take_drop by (by eapply lookup_lt_Some).
    rewrite <- (take_drop_middle row i c Hc) at 3.
    rewrite !omap_app, !length_app. simpl.
    destruct c, t; simpl; lia.
  Qed.

Lemma count_put (p : pos) (t : option Tile) :
    _is_valid b p = true ->
    (count_tiles (put b p t) + occ (cell b p) = count_tiles b + occ t)%nat.
  Proof.
    intros Hv. destruct (valid_row p Hv) as (row & Hrow & Hlen & Hy).
    destruct (lookup_lt_is_Some_2 row (Z.to_nat p.2) Hy) as [c Hc].
    unfold count_tiles, put, cell. simpl. rewrite Hrow, Hc. simpl.
    rewrite insert_take_drop by (by eapply lookup_lt_Some).
    rewrite <- (take_drop_middle (board b) _ row Hrow) at 3.
    rewrite !sum_list_with_app. simpl.
    pose proof (row_count_insert row _ c t Hc). lia.
  Qed.

Lemma count_le_area : (count_tiles b <= Z.to_nat (width b) * Z.to_nat (height b))%nat.
  Proof.
    destruct Hshape as [Hlen Hrows]. unfold count_tiles. rewrite <- Hlen.
    clear Hlen. induction Hrows as [|row rows Hrow _ IH]; simpl; [lia|].
    pose proof (omap_id_length row). lia.
  Qed.
End grid.

Lemma board_ext (b1 b2 : Board) :
  shaped b1 -> shaped b2 -> square b1 ->
  width b2 = width b1 -> height b2 = height b1 ->
  (forall p, _is_valid b1 p = true -> cell b1 p = cell b2 p) ->
  b1 = b2.
Proof.
  destruct b1 as [w1 h1 g1], b2 as [w2 h2 g2].
  unfold shaped, square, cell. simpl.
  intros [Hl1 Hr1] [Hl2 Hr2] Hsq -> -> Hcell. subst w1. f_equal.
  apply (list_eq_same_length _ _ (Z.to_nat h1)); [done..|].
  intros i r1 r2 Hi Hg1 Hg2.
  assert (length r1 = Z.to_nat h1) as Hlr1
    by (eapply (proj1 (Forall_lookup _ _) Hr1); eauto).
  assert (length r2 = Z.to_nat h1) as Hlr2
    by (eapply (proj1 (Forall_lookup _ _) Hr2); eauto).
  apply (list_eq_same_length _ _ (Z.to_nat h1)); [done..|].
  intros j c1 c2 Hj Hc1 Hc2.
  specialize (Hcell (Z.of_nat i, Z.of_nat j)). simpl in Hcell.
  rewrite !Nat2Z.id, Hg1, Hg2, Hc1, Hc2 in Hcell.
  apply Hcell. apply is_valid_spec. simpl. lia.
Qed.

(** * Loops *)

Lemma for_each_app {A S} (l1 l2 : list A) (body : A -> S -> result S) (s : S) :
  for_each (l1 ++ l2) body s = (s' ← for_each l1 body s; for_each l2 body s').
Proof.
  revert s. induction l1 as [|a l1 IH]; intros s; simpl; [done|].
  destruct (body a s); simpl; auto.
Qed.

(** Invariant rule: [Inv rest s] holds when [rest] is still to be
    visited and the loop state is [s]. *)
Lemma for_each_inv {A S} (Inv : list A -> S -> Prop)
    (body : A -> S -> result S) :
  (forall a rest s, Inv (a :: rest) s ->
     exists s', body a s = Ok s' ∧ Inv rest s') ->
  forall l s, Inv l s -> exists s', for_each l body s = Ok s' ∧ Inv [] s'.
Proof.
  intros Hstep l. induction l as [|a l IH]; intros s HI; simpl; [eauto|].
  destruct (Hstep a l s HI) as (s' & -> & HI'). simpl. eauto.
Qed.

Lemma for_each_column {S} (x : Z) (ys : list Z)
    (body : Z -> Z -> S -> result S) (s : S) :
  for_each (map (fun y => (x, y)) ys) (fun p => body p.1 p.2) s =
  for_each ys (body x) s.
Proof.
  revert s. induction ys as [|y ys IH]; intros s; simpl; [done|].
  destruct (body x y s); simpl; auto.
Qed.

Lemma for_each_nested {S} (xs ys : list Z) (body : Z -> Z -> S -> result S)
    (s : S) :
  for_each xs (fun x => for_each ys (body x)) s =
  for_each (list_prod xs ys) (fun p => body p.1 p.2) s.
Proof.
  revert s. induction xs as [|x xs IH]; intros s; simpl; [done|].
  rewrite for_each_app, for_each_column.
  destruct (for_each ys (body x) s); simpl; auto.
Qed.

Lemma in_range (n x : Z) : In x (range n) <-> 0 <= x < n.
Proof. unfold range. rewrite <- list_elem_of_In, elem_of_seqZ. lia. Qed.

Lemma in_scan (b : Board) (p : pos) :
  In p (scan (width b) (height b)) <-> _is_valid b p = true.
Proof.
  destruct p as [x y]. unfold scan. rewrite is_valid_spec. simpl.
  split.
  - intros [Hx%in_range Hy%in_range]%in_prod_iff. done.
  - intros [Hx Hy]. apply in_prod_iff. by rewrite !in_range.
Qed.

Lemma for_each_fmap {A B S} (f : A -> B) (l : list A)
    (body : B -> S -> result S) (s : S) :
  for_each (f <$> l) body s = for_each l (fun a => body (f a)) s.
Proof.
  revert s. induction l as [|a l IH]; intros s; simpl; [done|].
  destruct (body (f a) s); simpl; auto.
Qed.

(** * Compaction, any direction *)

Lemma reach_bound (b : Board) (d p : pos) :
  square b -> _is_valid b p = true -> 0 <= reach (width b) d p <= width b.
Proof.
  intros Hsq Hv%is_valid_spec. unfold square in Hsq. unfold reach.
  repeat case_match; lia.
Qed.

Lemma reach_step (b : Board) (d p : pos) :
  square b -> _is_valid b p = true ->
  _is_valid b (_move_position p d) = true ->
  _move_position p d ≠ p ->
  0 < reach (width b) d (_move_position p d) < reach (width b) d p.
Proof.
  intros Hsq Hv%is_valid_spec Hn%is_valid_spec Hne. unfold square in Hsq.
  destruct p as [x y], d as [dx dy]. unfold reach, _move_position in *.
  simpl in *.
  destruct (Z.ltb_spec 0 dx); [lia|].
  destruct (Z.ltb_spec dx 0); [lia|].
  destruct (Z.ltb_spec 0 dy); [lia|].
  destruct (Z.ltb_spec dy 0); [lia|].
  exfalso. apply Hne. f_equal; lia.
Qed.

Lemma compact_while_any (d : pos) (fuel : nat) :
  forall (b : Board) (curr : pos) (ch : bool) (t : Tile),
    shaped b -> square b -> _is_valid b curr = true ->
    cell b curr = Some t ->
    reach (width b) d curr < Z.of_nat fuel ->
    exists b' moved,
      compact_while fuel d b curr (_move_position curr d) ch
        = Ok (b', ch || moved) ∧
      shaped b' ∧ width b' = width b ∧ height b' = height b ∧
      count_tiles b' = count_tiles b ∧
      (moved = false -> b' = b ∧ stuck_at b d curr) ∧
      (moved = true -> ¬ stuck_at b d curr).
Proof.
  induction fuel as [|fuel IH]; intros b curr ch t Hsh Hsq Hv Hc Hfuel.
  { pose proof (reach_bound b d curr Hsq Hv). lia. }
  simpl. destruct (_is_valid b (_move_position curr d)) eqn:Hnext.
  2:{ exists b, false. rewrite orb_false_r. unfold stuck_at.
      split_and!; auto; discriminate. }
  rewrite (get_valid b Hsh Hsq _ Hnext). simpl.
  destruct (cell b (_move_position curr d)) as [t'|] eqn:Hcn.
  { exists b, false. rewrite orb_false_r. unfold stuck_at.
    split_and!; auto; [|discriminate].
    intros _. split; [done|]. right; right. by rewrite Hcn. }
  assert (_move_position curr d ≠ curr) as Hne by congruence.
  rewrite (get_valid b Hsh Hsq _ Hv), Hc. simpl.
  rewrite (set_valid b Hsh Hsq _ _ Hnext). simpl.
  set (b1 := put b (_move_position curr d) (Some t)).
  assert (shaped b1) as Hsh1 by by apply put_shaped.
  assert (square b1) as Hsq1 by done.
  rewrite (set_valid b1 Hsh1 Hsq1 curr None Hv). simpl.
  set (b2 := put b1 curr None).
  assert (shaped b2) as Hsh2 by by apply put_shaped.
  assert (cell b2 (_move_position curr d) = Some t) as Hc2.
  { unfold b2. rewrite (cell_put_ne b1 Hsh1 Hsq1) by done.
    by apply cell_put_eq. }
  destruct (IH b2 (_move_position curr d) true t Hsh2 Hsq1 Hnext Hc2)
    as (b' & moved & Hrun & Hsh' & Hw & Hh & Hcnt & _ & _).
  { pose proof (reach_step b d curr Hsq Hv Hnext Hne).
    change (width b2) with (width b). lia. }
  exists b', true. rewrite orb_true_r. rewrite Hrun. simpl.
  split_and!; auto.
  - rewrite Hcnt.
    pose proof (count_put b1 Hsh1 Hsq1 curr None Hv) as H1.
    pose proof (count_put b Hsh Hsq _ (Some t) Hnext) as H2.
    rewrite Hcn in H2.
    assert (cell b1 curr = Some t) as Hc1.
    { unfold b1. by rewrite (cell_put_ne b Hsh Hsq). }
    rewrite Hc1 in H1. simpl in *. fold b1 in H2. fold b2 in H1. lia.
  - discriminate.
  - intros _ [Hs|[Hs|Hs]]; congruence.
Qed.

Lemma compact_cell_any (d : pos) (fuel : nat) (b : Board) (ch : bool) (p : pos) :
  shaped b -> square b -> _is_valid b p = true ->
  width b < Z.of_nat fuel ->
  exists b' moved,
    compact_cell fuel d p.1 p.2 (b, ch) = Ok (b', ch || moved) ∧
    shaped b' ∧ width b' = width b ∧ height b' = height b ∧
    count_tiles b' = count_tiles b ∧
    (moved = false -> b' = b ∧ stuck_at b d p) ∧
    (moved = true -> ¬ stuck_at b d p).
Proof.
  intros Hsh Hsq Hv Hfuel. unfold compact_cell. destruct p as [x y].
  simpl. rewrite (get_valid b Hsh Hsq _ Hv). simpl.
  destruct (cell b (x, y)) as [t|] eqn:Hc.
  - apply (compact_while_any d fuel b (x, y) ch t); auto.
    pose proof (reach_bound b d (x, y) Hsq Hv). lia.
  - exists b, false. rewrite orb_false_r.
    split_and!; auto; [|discriminate].
    intros _. split; [done|]. by left.
Qed.

Lemma compact_pass_scan (fuel : nat) (d : pos) (w h : Z) (st : Board * bool) :
  compact_pass fuel d w h st =
  for_each (scan w h) (fun p => compact_cell fuel d p.1 p.2) st.
Proof. unfold compact_pass, scan. by rewrite for_each_nested. Qed.

Lemma compact_pass_any (d : pos) (fuel : nat) (b : Board) (ch : bool) :
  shaped b -> square b -> width b < Z.of_nat fuel ->
  exists b' moved,
    compact_pass fuel d (width b) (height b) (b, ch) = Ok (b', ch || moved) ∧
    shaped b' ∧ width b' = width b ∧ height b' = height b ∧
    count_tiles b' = count_tiles b ∧
    (moved = false -> b' = b ∧ all_stuck b d) ∧
    (moved = true -> ¬ all_stuck b d).
Proof.
  intros Hsh Hsq Hfuel. rewrite compact_pass_scan.
  set (Inv := fun (rest : list pos) (s : Board * bool) =>
    (forall p, In p rest -> _is_valid b p = true) ∧
    shaped s.1 ∧ width s.1 = width b ∧ height s.1 = height b ∧
    count_tiles s.1 = count_tiles b ∧
    ((s = (b, ch) ∧
      forall p, _is_valid b p = true -> ¬ In p rest -> stuck_at b d p) ∨
     (s.2 = true ∧ ¬ all_stuck b d))).
  destruct (for_each_inv Inv (fun p => compact_cell fuel d p.1 p.2))
    with (l := scan (width b) (height b)) (s := (b, ch))
    as ([b' ch'] & Hrun & Hin & Hsh' & Hw & Hh & Hcnt & Hflag).
  - intros a rest [bs chs] (Hin & Hsh' & Hw & Hh & Hcnt & Hflag).
    simpl in *.
    assert (_is_valid bs a = true) as Hva.
    { unfold _is_valid. rewrite Hw, Hh. apply Hin. by left. }
    assert (square bs) as Hsq' by (unfold square in *; congruence).
    destruct (compact_cell_any d fuel bs chs a Hsh' Hsq' Hva)
      as (b1 & moved & Hrun & Hsh1 & Hw1 & Hh1 & Hcnt1 & Hno & Hyes);
      [lia|].
    exists (b1, chs || moved). split; [done|]. unfold Inv. simpl.
    split_and!; auto; try congruence.
    destruct Hflag as [[[= -> ->] Hvis]|[-> Hns]]; [|by right].
    destruct moved.
    + right. rewrite orb_true_r. split; [done|].
      intros Hall. apply Hyes; [done|]. apply Hall. apply Hin. by left.
    + left. destruct Hno as [-> Hst]; [done|]. rewrite orb_false_r.
      split; [done|]. intros p Hp Hnin.
      destruct (decide (p = a)) as [->|Hne]; [done|].
      apply Hvis; [done|]. intros [?|?]; congruence.
  - unfold Inv. simpl. split_and!; auto.
    + intros p. apply in_scan.
    + left. split; [done|]. intros p Hp Hnin. exfalso. apply Hnin.
      by apply in_scan.
  - simpl in *. destruct Hflag as [[[= -> ->] Hvis]|[-> Hns]].
    + exists b, false. rewrite orb_false_r.
      split_and!; auto; [|discriminate].
      intros _. split; [done|]. intros p Hp. apply Hvis; auto.
    + exists b', true. rewrite orb_true_r. split_and!; auto. discriminate.
Qed.

Lemma compact_any (d : pos) (fuel : nat) (b : Board) :
  shaped b -> square b -> width b < Z.of_nat fuel ->
  exists b' ch,
    _compact fuel b d = Ok (b', ch) ∧
    shaped b' ∧ width b' = width b ∧ height b' = height b ∧
    count_tiles b' = count_tiles b ∧
    (ch = false -> b' = b ∧ all_stuck b d) ∧
    (ch = true -> ¬ all_stuck b d).
Proof.
  intros Hsh Hsq Hfuel. unfold _compact.
  set (passes := range (Z.max (width b) (height b))).
  set (Inv := fun (rest : list Z) (s : Board * bool) =>
    shaped s.1 ∧ width s.1 = width b ∧ height s.1 = height b ∧
    count_tiles s.1 = count_tiles b ∧
    ((s = (b, false) ∧ (rest = passes ∨ all_stuck b d)) ∨
     (s.2 = true ∧ ¬ all_stuck b d))).
  destruct (for_each_inv Inv
              (fun _ => compact_pass fuel d (width b) (height b)))
    with (l := passes) (s := (b, false))
    as ([b' ch'] & Hrun & Hsh' & Hw & Hh & Hcnt & Hflag).
  - intros a rest [bs chs] (Hsh' & Hw & Hh & Hcnt & Hflag). simpl in *.
    assert (square bs) as Hsq' by (unfold square in *; congruence).
    destruct (compact_pass_any d fuel bs chs Hsh' Hsq')
      as (b1 & moved & Hrun & Hsh1 & Hw1 & Hh1 & Hcnt1 & Hno & Hyes);
      [lia|].
    rewrite Hw, Hh in Hrun.
    exists (b1, chs || moved). split; [done|]. unfold Inv. simpl.
    split_and!; auto; try congruence.
    destruct Hflag as [[[= -> ->] Hvis]|[-> Hns]]; [|by right].
    destruct moved; simpl.
    + right. auto.
    + left. destruct Hno as [-> Hst]; auto.
  - unfold Inv. simpl. split_and!; auto.
  - simpl in *. exists b', ch'. split; [done|]. split_and!; auto.
    + intros ->. destruct Hflag as [[[= ->] [Hnil|Hst]]|[? _]];
        [| |done]; split; auto.
      intros p [Hx Hy]%is_valid_spec. exfalso.
      assert (In 0 passes) as Hin by (apply in_range; lia).
      rewrite <- Hnil in Hin. destruct Hin.
    + intros ->. destruct Hflag as [[[= ] _]|[_ Hns]]. done.
Qed.

(** * The four unit directions: lines and depths *)

Ltac unit_cases H :=
  destruct H as [-> | [-> | [-> | ->]]];
  unfold at_lk, line_of, depth, _move_position in *; simpl in *.

Ltac lk_cases :=
  repeat case_decide; destruct_and?; subst; try done; try lia.

Lemma at_line_depth (n : Z) (d p : pos) :
  unit_dir d -> at_lk n d (line_of d p) (depth n d p) = p.
Proof. intros Hd. destruct p as [x y]. unit_cases Hd; f_equal; lia. Qed.

Lemma at_lk_inj (n : Z) (d : pos) (j k j' k' : Z) :
  unit_dir d -> at_lk n d j k = at_lk n d j' k' -> j = j' ∧ k = k'.
Proof. intros Hd. unit_cases Hd; intros [= ? ?]; lia. Qed.

Lemma line_of_at (n : Z) (d : pos) (j k : Z) :
  unit_dir d -> line_of d (at_lk n d j k) = j.
Proof. intros Hd. by unit_cases Hd. Qed.

Lemma depth_at (n : Z) (d : pos) (j k : Z) :
  unit_dir d -> depth n d (at_lk n d j k) = k.
Proof. intros Hd. unit_cases Hd; lia. Qed.

Lemma move_at (n : Z) (d : pos) (j k : Z) :
  unit_dir d -> _move_position (at_lk n d j k) d = at_lk n d j (k - 1).
Proof. intros Hd. unit_cases Hd; f_equal; lia. Qed.

Lemma move_back_at (n : Z) (d : pos) (j k : Z) :
  unit_dir d ->
  _move_position (at_lk n d j k) (- d.1, - d.2) = at_lk n d j (k + 1).
Proof. intros Hd. unit_cases Hd; f_equal; lia. Qed.

Lemma valid_at (b : Board) (d : pos) (j k : Z) :
  unit_dir d -> square b ->
  _is_valid b (at_lk (width b) d j k) = true <->
  0 <= j < width b ∧ 0 <= k < width b.
Proof.
  intros Hd Hsq. rewrite is_valid_spec. unfold square in Hsq.
  rewrite <- Hsq. unit_cases Hd; lia.
Qed.

Lemma valid_line_depth (b : Board) (d p : pos) :
  unit_dir d -> square b -> _is_valid b p = true ->
  0 <= line_of d p < width b ∧ 0 <= depth (width b) d p < width b.
Proof.
  intros Hd Hsq Hv. apply (valid_at b d); [done..|].
  by rewrite at_line_depth.
Qed.

Lemma lc_put (b : Board) (d : pos) (j k j' i : Z) (v : option Tile) :
  unit_dir d -> shaped b -> square b ->
  0 <= j < width b -> 0 <= k < width b ->
  0 <= j' < width b -> 0 <= i < width b ->
  lc (put b (at_lk (width b) d j k) v) d j' i =
  if decide (j' = j ∧ i = k) then v else lc b d j' i.
Proof.
  intros Hd Hsh Hsq Hj Hk Hj' Hi. unfold lc.
  change (width (put b (at_lk (width b) d j k) v)) with (width b).
  rewrite cell_put by (done || by apply valid_at).
  repeat case_decide; try done.
  - apply at_lk_inj in H; [done|done].
  - destruct H0 as [-> ->]. done.
Qed.

Lemma tiles_none (f : Z -> option Tile) (l : list Z) :
  (forall x, x ∈ l -> f x = None) -> tiles (f <$> l) = [].
Proof.
  induction l as [|x l IH]; intros H; [done|]. unfold tiles in *. cbn.
  rewrite (H x) by left. cbn. apply IH. intros y Hy. apply H. by right.
Qed.

Lemma range_cut (n k' k : Z) :
  0 <= k' < k -> k < n ->
  range n = seqZ 0 k' ++ k' :: seqZ (k' + 1) (k - k' - 1)
              ++ k :: seqZ (k + 1) (n - k - 1).
Proof.
  intros Hk' Hk. unfold range.
  replace n with (k' + (n - k')) at 1 by lia.
  rewrite seqZ_app by lia. f_equal. rewrite Z.add_0_l.
  rewrite seqZ_cons by lia. f_equal.
  replace (Z.pred (n - k')) with ((k - k' - 1) + (n - k)) by lia.
  rewrite seqZ_app by lia. replace (Z.succ k') with (k' + 1) by lia.
  f_equal. replace (k' + 1 + (k - k' - 1)) with k by lia.
  rewrite seqZ_cons by lia. repeat f_equal; lia.
Qed.

Section unit_direction.
Context (d : pos) (Hd : unit_dir d).

Lemma compact_while_unit (fuel : nat) :
    forall (b : Board) (j k : Z) (ch : bool) (t : Tile),
      shaped b -> square b ->
      0 <= j < width b -> 0 <= k < width b ->
      lc b d j k = Some t ->
      k < Z.of_nat fuel ->
      exists b' k',
        compact_while fuel d b (at_lk (width b) d j k)
          (at_lk (width b) d j (k - 1)) ch = Ok (b', ch || (k' <? k)) ∧
        0 <= k' <= k ∧
        (forall i, k' <= i < k -> lc b d j i = None) ∧
        (k' = 0 ∨ lc b d j (k' - 1) ≠ None) ∧
        shaped b' ∧ width b' = width b ∧ height b' = height b ∧
        (k' = k -> b' = b) ∧
        (forall j' i, 0 <= j' < width b -> 0 <= i < width b ->
           lc b' d j' i =
           if decide (j' = j ∧ i = k') then Some t
           else if decide (j' = j ∧ i = k) then None
           else lc b d j' i).
  Proof.
    induction fuel as [|fuel IH]; intros b j k ch t Hsh Hsq Hj Hk Hc Hfuel;
      [lia|].
    simpl.
    destruct (_is_valid b (at_lk (width b) d j (k - 1))) eqn:Hnext.
    2:{ exists b, k. rewrite Z.ltb_irrefl, orb_false_r.
        assert (k = 0) as ->.
        { apply is_valid_false in Hnext.
          destruct (decide (k = 0)); [done|]. exfalso. apply Hnext.
          apply is_valid_spec. apply valid_at; [done..|lia]. }
        split_and!; auto; try lia.
        intros j' i Hj' Hi. lk_cases. }
    assert (0 <= k - 1 < width b) as Hk1.
    { apply valid_at in Hnext; [lia|done..]. }
    rewrite (get_valid b Hsh Hsq _ Hnext). simpl.
    fold (lc b d j (k - 1)).
    destruct (lc b d j (k - 1)) as [t'|] eqn:Hcn.
    { exists b, k. rewrite Z.ltb_irrefl, orb_false_r.
      split_and!; auto; try lia.
      - right. by rewrite Hcn.
      - intros j' i Hj' Hi. lk_cases. }
    assert (_is_valid b (at_lk (width b) d j k) = true) as Hv
      by by apply valid_at.
    rewrite (get_valid b Hsh Hsq _ Hv). fold (lc b d j k). rewrite Hc.
    simpl. rewrite (set_valid b Hsh Hsq _ _ Hnext). simpl.
    set (b1 := put b (at_lk (width b) d j (k - 1)) (Some t)).
    assert (shaped b1) as Hsh1 by by apply put_shaped.
    assert (square b1) as Hsq1 by done.
    rewrite (set_valid b1 Hsh1 Hsq1 _ None Hv). simpl.
    set (b2 := put b1 (at_lk (width b) d j k) None).
    assert (shaped b2) as Hsh2 by by apply put_shaped.
    assert (forall j' i, 0 <= j' < width b -> 0 <= i < width b ->
              lc b2 d j' i =
              if decide (j' = j ∧ i = k) then None
              else if decide (j' = j ∧ i = k - 1) then Some t
              else lc b d j' i) as Hpt2.
    { intros j' i Hj' Hi. unfold b2.
      change (width b) with (width b1) at 1.
      rewrite lc_put by done. case_decide; [done|].
      unfold b1. by rewrite lc_put. }
    destruct (IH b2 j (k - 1) true t Hsh2 Hsq1) as
      (b' & k' & Hrun & Hk' & Hgap & Hblock & Hsh' & Hw & Hh & _ & Hpt);
      [done|done| |lia|].
    { rewrite Hpt2 by lia. repeat case_decide; try done; lia. }
    change (width b2) with (width b) in *.
    rewrite <- (move_at (width b) d j (k - 1)) in Hrun by done.
    exists b', k'. rewrite Hrun. simpl.
    assert ((k' <? k) = true) as -> by (apply Z.ltb_lt; lia).
    rewrite orb_true_r.
    split_and!; auto; try lia.
    - intros i Hi. destruct (decide (i = k - 1)) as [->|Hne]; [done|].
      specialize (Hgap i). rewrite Hpt2 in Hgap by lia.
      repeat case_decide; try lia. apply Hgap. lia.
    - destruct (decide (k' = 0)) as [->|?]; [by left|]. right.
      destruct Hblock as [?|Hb]; [done|].
      rewrite Hpt2 in Hb by lia. repeat case_decide; try lia. done.
    - intros j' i Hj' Hi. rewrite Hpt, Hpt2 by done.
      lk_cases.
  Qed.

Lemma compact_cell_unit (fuel : nat) (b : Board) (ch : bool) (p : pos) :
    shaped b -> square b -> _is_valid b p = true ->
    width b < Z.of_nat fuel ->
    exists b' ch',
      compact_cell fuel d p.1 p.2 (b, ch) = Ok (b', ch') ∧
      shaped b' ∧ width b' = width b ∧ height b' = height b ∧
      slid d b b' (line_of d p) (depth (width b) d p).
  Proof.
    intros Hsh Hsq Hv Hfuel.
    destruct (valid_line_depth b d p Hd Hsq Hv) as [Hj Hk].
    pose proof (at_line_depth (width b) d p Hd) as Hp.
    set (j := line_of d p) in *. set (k := depth (width b) d p) in *.
    unfold compact_cell. replace (p.1, p.2) with p by by destruct p.
    simpl. rewrite (get_valid b Hsh Hsq _ Hv). simpl.
    assert (cell b p = lc b d j k) as Hc by (unfold lc; by rewrite Hp).
    rewrite Hc. destruct (lc b d j k) as [t|] eqn:Hct.
    2:{ exists b, ch. split_and!; auto. left. auto. }
    destruct (compact_while_unit fuel b j k ch t Hsh Hsq Hj Hk Hct)
      as (b' & k' & Hrun & Hk' & Hgap & Hblock & Hsh' & Hw & Hh & Hsame & Hpt);
      [lia|].
    rewrite <- (move_at (width b) d j k Hd), Hp in Hrun.
    exists b', (ch || (k' <? k)). split_and!; auto; try lia.
    destruct (decide (k' = k)) as [->|Hne].
    - left. split; [auto|]. right. destruct Hblock; auto.
    - right. exists t, k'. split_and!; auto; lia.
  Qed.

Lemma first_tile_behind (f : Z -> option Tile) (lo : Z) (m : nat) :
    (forall k, lo <= k < lo + Z.of_nat m -> f k = None) ∨
    (exists k, lo <= k < lo + Z.of_nat m ∧ f k ≠ None ∧
       forall k3, lo <= k3 < k -> f k3 = None).
  Proof.
    induction m as [|m [IH|(k & Hk & Hf & Hlow)]].
    - left. intros k Hk. lia.
    - destruct (f (lo + Z.of_nat m)) as [t|] eqn:Hf.
      + right. exists (lo + Z.of_nat m). split_and!; [lia..| |].
        * by rewrite Hf.
        * intros k3 Hk3. apply IH. lia.
      + left. intros k Hk.
        destruct (decide (k = lo + Z.of_nat m)) as [->|Hne]; [done|].
        apply IH. lia.
    - right. exists k. split_and!; auto; lia.
  Qed.

Lemma pending_start (b : Board) (i : Z) :
    square b -> pending d b i (scan (width b) (height b)).
  Proof.
    intros Hsq j Hj Hi Hc.
    destruct (first_tile_behind (lc b d j) (i + 1)
                (Z.to_nat (width b - i - 1)))
      as [Hnone|(k & Hk & Hf & Hlow)].
    - left. intros k2 Hk2. apply Hnone. lia.
    - right. exists k. split_and!; auto; try lia.
      + intros k3 Hk3. apply Hlow. lia.
      + apply in_scan. apply valid_at; [done..|lia].
  Qed.

Lemma slid_settled (b b' : Board) (i j k : Z) :
    width b' = width b ->
    0 <= j < width b -> 0 <= k < width b ->
    slid d b b' j k -> settled d b i -> settled d b' i.
  Proof.
    intros Hw Hj Hk [[-> _]|(t & k' & Hc & Hk' & Hgap & Hblock & Hpt)] Hset;
      [done|].
    intros j2 k0 Hj2 Hk0 Hlt Hnone k2 Hk2. rewrite Hw in *.
    rewrite Hpt in Hnone |- * by lia.
    destruct (decide (j2 = j)) as [->|Hne]; [|lk_cases; eauto].
    assert (lc b d j (k - 1) = None) as Hprev by (apply Hgap; lia).
    destruct (decide (k0 = k')) as [->|?]; [lk_cases|].
    destruct (decide (k0 = k)) as [->|?].
    { pose proof (Hset j (k - 1) Hj ltac:(lia) ltac:(lia) Hprev k
                    ltac:(lia)). congruence. }
    assert (lc b d j k0 = None) as Hk0none by lk_cases.
    destruct (decide (k0 < k)).
    { pose proof (Hset j k0 Hj ltac:(lia) ltac:(lia) Hk0none k ltac:(lia)).
      congruence. }
    lk_cases. eapply Hset; [| |exact Hlt|exact Hk0none|]; lia.
  Qed.

Lemma slid_pending (b b' : Board) (i j k : Z) (rest : list pos) :
    width b' = width b ->
    0 <= j < width b -> 0 <= k < width b ->
    slid d b b' j k -> settled d b i ->
    pending d b i (at_lk (width b) d j k :: rest) -> pending d b' i rest.
  Proof.
    intros Hw Hj Hk Hslid Hset Hpend j2 Hj2 Hi Hnone. rewrite Hw in *.
    destruct Hslid as [[-> Hstay]|(t & k' & Hc & Hk' & Hgap & Hblock & Hpt)].
    - destruct (Hpend j2 Hj2 Hi Hnone) as [?|(k2 & Hk2 & Hf & Hlow & Hin)];
        [by left|].
      right. exists k2. split_and!; auto; try lia.
      destruct Hin as [Heq|?]; [|done]. exfalso.
      apply at_lk_inj in Heq as [-> ->]; [|done].
      destruct Hstay as [?|[?|Hb]]; [done|lia|].
      apply Hb. destruct (decide (k2 - 1 = i)) as [->|?]; [done|].
      apply Hlow. lia.
    - rewrite Hpt in Hnone by lia.
      destruct (decide (j2 = j)) as [->|Hne].
      2:{ assert (lc b d j2 i = None) as Hn by lk_cases.
          destruct (Hpend j2 Hj2 Hi Hn) as [Hall|(k2 & Hk2 & Hf & Hlow & Hin)].
          - left. intros k2 Hk2. rewrite Hpt by lia. lk_cases. eauto.
          - right. exists k2. rewrite Hpt by lia. split_and!; auto; try lia.
            + lk_cases.
            + intros k3 Hk3. rewrite Hpt by lia. lk_cases. eauto.
            + destruct Hin as [Heq|?]; [|done].
              apply at_lk_inj in Heq as [-> ->]; done. }
      assert (lc b d j (k - 1) = None) as Hprev by (apply Hgap; lia).
      destruct (decide (i = k')) as [->|?]; [lk_cases|].
      destruct (decide (i = k)) as [->|?].
      { pose proof (Hset j (k - 1) Hj ltac:(lia) ltac:(lia) Hprev k
                      ltac:(lia)). congruence. }
      assert (lc b d j i = None) as Hn by lk_cases.
      destruct (Hpend j Hj Hi Hn) as [Hall|(k2 & Hk2 & Hf & Hlow & Hin)].
      + left. intros k2 Hk2.
        assert (k < i).
        { destruct (decide (k < i)); [done|].
          rewrite Hall in Hc by lia. done. }
        rewrite Hpt by lia. lk_cases. eauto.
      + destruct (decide (k = k2)) as [->|Hkk].
        { exfalso. destruct (decide (i < k')).
          - destruct Hblock as [?|Hb]; [lia|]. apply Hb.
            destruct (decide (k' - 1 = i)) as [->|?]; [done|].
            apply Hlow. lia.
          - assert (lc b d j (i - 1) = None) as Hi1 by (apply Hgap; lia).
            pose proof (Hset j (i - 1) Hj ltac:(lia) ltac:(lia) Hi1 k2
                          ltac:(lia)). congruence. }
        assert (In (at_lk (width b) d j k2) rest) as Hin'.
        { destruct Hin as [Heq|?]; [|done].
          apply at_lk_inj in Heq as [_ ->]; done. }
        assert (k < i ∨ k2 < k') as Hside.
        { destruct (decide (k < i)); [by left|]. right.
          destruct (decide (k2 < k')); [done|]. exfalso.
          destruct (decide (k < k2)).
          - rewrite Hlow in Hc by lia. done.
          - apply Hf. apply Hgap. lia. }
        right. exists k2. rewrite Hpt by lia. split_and!; auto; try lia.
        * lk_cases.
        * intros k3 Hk3. rewrite Hpt by lia. lk_cases. eauto.
  Qed.

Lemma slid_tiles (b b' : Board) (j k : Z) :
    width b' = width b ->
    0 <= j < width b -> 0 <= k < width b ->
    slid d b b' j k ->
    forall j', 0 <= j' < width b ->
      tiles (line b' d j') = tiles (line b d j').
  Proof.
    intros Hw Hj Hk [[-> _]|(t & k' & Hc & Hk' & Hgap & Hblock & Hpt)] j' Hj';
      [done|].
    unfold line. rewrite Hw.
    destruct (decide (j' = j)) as [->|Hne].
    2:{ apply (f_equal tiles). apply list_fmap_ext. intros i x [-> Hx]%lookup_seqZ.
        rewrite Hpt by lia. lk_cases. }
    rewrite (range_cut (width b) k' k) by lia.
    rewrite !fmap_app, !fmap_cons, !fmap_app, !fmap_cons.
    unfold tiles. rewrite !omap_app. cbn. rewrite !omap_app. cbn.
    assert (lc b' d j <$> seqZ 0 k' = lc b d j <$> seqZ 0 k') as ->.
    { apply list_fmap_ext. intros i x [-> Hx]%lookup_seqZ.
      rewrite Hpt by lia. lk_cases. }
    assert (lc b' d j <$> seqZ (k + 1) (width b - k - 1)
            = lc b d j <$> seqZ (k + 1) (width b - k - 1)) as ->.
    { apply list_fmap_ext. intros i x [-> Hx]%lookup_seqZ.
      rewrite Hpt by lia. lk_cases. }
    fold (tiles (lc b' d j <$> seqZ (k' + 1) (k - k' - 1))).
    fold (tiles (lc b d j <$> seqZ (k' + 1) (k - k' - 1))).
    rewrite (tiles_none (lc b' d j) (seqZ (k' + 1) (k - k' - 1))),
      (tiles_none (lc b d j) (seqZ (k' + 1) (k - k' - 1))).
    - rewrite (Hpt j k'), (Hpt j k), (Hgap k'), Hc by lia. lk_cases.
    - intros x Hx%elem_of_seqZ. rewrite ?Hpt by lia.
      lk_cases; apply Hgap; lia.
    - intros x Hx%elem_of_seqZ. rewrite ?Hpt by lia.
      lk_cases; apply Hgap; lia.
  Qed.

Lemma compact_pass_unit (fuel : nat) (b : Board) (ch : bool) (i : Z) :
    shaped b -> square b -> width b < Z.of_nat fuel -> settled d b i ->
    exists b' ch',
      compact_pass fuel d (width b) (height b) (b, ch) = Ok (b', ch') ∧
      shaped b' ∧ width b' = width b ∧ height b' = height b ∧
      settled d b' (i + 1) ∧
      (forall j, 0 <= j < width b ->
         tiles (line b' d j) = tiles (line b d j)).
  Proof.
    intros Hsh Hsq Hfuel Hset. rewrite compact_pass_scan.
    set (Inv := fun (rest : list pos) (s : Board * bool) =>
      (forall p, In p rest -> _is_valid b p = true) ∧
      shaped s.1 ∧ width s.1 = width b ∧ height s.1 = height b ∧
      settled d s.1 i ∧ pending d s.1 i rest ∧
      (forall j, 0 <= j < width b ->
         tiles (line s.1 d j) = tiles (line b d j))).
    destruct (for_each_inv Inv (fun p => compact_cell fuel d p.1 p.2))
      with (l := scan (width b) (height b)) (s := (b, ch))
      as ([b' ch'] & Hrun & Hin & Hsh' & Hw & Hh & Hset' & Hpend & Htl).
    - intros a rest [bs chs] (Hin & Hsh' & Hw & Hh & Hset' & Hpend & Htl).
      simpl in *.
      assert (_is_valid bs a = true) as Hva.
      { unfold _is_valid. rewrite Hw, Hh. apply Hin. by left. }
      assert (square bs) as Hsq' by (unfold square in *; congruence).
      destruct (compact_cell_unit fuel bs chs a Hsh' Hsq' Hva)
        as (b1 & ch1 & Hrun & Hsh1 & Hw1 & Hh1 & Hslid); [lia|].
      destruct (valid_line_depth bs d a Hd Hsq' Hva) as [Hj Hk].
      exists (b1, ch1). split; [done|]. unfold Inv. simpl.
      split_and!; auto; try congruence.
      + apply (slid_settled bs b1 i _ _ Hw1 Hj Hk Hslid Hset').
      + apply (slid_pending bs b1 i _ _ rest Hw1 Hj Hk Hslid Hset').
        by rewrite at_line_depth.
      + intros j Hj'. rewrite <- Htl by done.
        apply (slid_tiles bs b1 _ _ Hw1 Hj Hk Hslid). lia.
    - unfold Inv. simpl. split_and!; auto.
      + intros p. apply in_scan.
      + by apply pending_start.
    - simpl in *. exists b', ch'. split_and!; auto.
      intros j k Hj Hk Hlt Hnone k2 Hk2.
      destruct (decide (k < i)); [by eapply Hset'|].
      assert (k = i) as -> by lia.
      destruct (Hpend j Hj Hk Hnone) as [Hall|(k3 & _ & _ & _ & [])].
      by apply Hall.
  Qed.

Lemma compact_unit (fuel : nat) (b : Board) :
    shaped b -> square b -> width b < Z.of_nat fuel ->
    exists b' ch,
      _compact fuel b d = Ok (b', ch) ∧ settled d b' (width b) ∧
      (forall j, 0 <= j < width b ->
         tiles (line b' d j) = tiles (line b d j)).
  Proof.
    intros Hsh Hsq Hfuel. unfold _compact.
    assert (Z.max (width b) (height b) = width b) as ->
      by (unfold square in Hsq; lia).
    set (Inv := fun (rest : list Z) (s : Board * bool) =>
      shaped s.1 ∧ width s.1 = width b ∧ height s.1 = height b ∧
      settled d s.1 (width b - Z.of_nat (length rest)) ∧
      (forall j, 0 <= j < width b ->
         tiles (line s.1 d j) = tiles (line b d j))).
    destruct (for_each_inv Inv
                (fun _ => compact_pass fuel d (width b) (height b)))
      with (l := range (width b)) (s := (b, false))
      as ([b' ch'] & Hrun & Hsh' & Hw & Hh & Hset & Htl).
    - intros a rest [bs chs] (Hsh' & Hw & Hh & Hset & Htl). simpl in *.
      assert (square bs) as Hsq' by (unfold square in *; congruence).
      destruct (compact_pass_unit fuel bs chs _ Hsh' Hsq' ltac:(lia) Hset)
        as (b1 & ch1 & Hrun & Hsh1 & Hw1 & Hh1 & Hset1 & Htl1).
      rewrite Hw, Hh in Hrun.
      exists (b1, ch1). split; [done|]. unfold Inv. simpl.
      split_and!; auto; try congruence.
      + replace (width b - Z.of_nat (length rest))
          with (width b - Z.of_nat (S (length rest)) + 1) by lia.
        done.
      + intros j Hj. rewrite Htl1 by lia. by apply Htl.
    - unfold Inv. simpl. split_and!; auto.
      intros j k Hj Hk Hlt. exfalso. unfold range in Hlt.
      rewrite length_seqZ in Hlt. lia.
    - simpl in *. exists b', ch'. split_and!; auto.
      rewrite Z.sub_0_r in Hset.
      intros j k Hj Hk Hlt. apply Hset; lia.
  Qed.

Lemma settled_all_stuck (b : Board) :
    square b -> settled d b (width b) -> all_stuck b d.
  Proof.
    intros Hsq Hset p Hv.
    destruct (valid_line_depth b d p Hd Hsq Hv) as [Hj Hk].
    pose proof (at_line_depth (width b) d p Hd) as Hp.
    set (j := line_of d p) in *. set (k := depth (width b) d p) in *.
    unfold stuck_at. rewrite <- Hp, move_at by done.
    fold (lc b d j k). fold (lc b d j (k - 1)).
    destruct (lc b d j k) as [t|] eqn:Hc; [|by left]. right.
    destruct (decide (k = 0)) as [->|Hne].
    - left. apply is_valid_false. intros Hv'%is_valid_spec.
      apply valid_at in Hv'; [lia|done..].
    - right. intros Hnone.
      rewrite (Hset j (k - 1)) in Hc; [done|lia..|done|lia].
  Qed.

Lemma merge_while_unit (fuel : nat) :
    forall (b : Board) (j k : Z) (ch : bool),
      shaped b -> square b ->
      0 <= j < width b -> 0 <= k < width b ->
      width b - k < Z.of_nat fuel ->
      exists b' ch',
        merge_while fuel (- d.1, - d.2) b (at_lk (width b) d j k)
          (at_lk (width b) d j (k + 1)) ch = Ok (b', ch') ∧
        shaped b' ∧ width b' = width b ∧ height b' = height b ∧
        (count_tiles b' <= count_tiles b)%nat ∧
        (ch = true -> ch' = true) ∧
        (ch' = false -> b' = b) ∧
        (ch' = true -> ch = true ∨ (count_tiles b' < count_tiles b)%nat) ∧
        (forall j' i, 0 <= j' < width b -> 0 <= i < width b ->
           j' ≠ j ∨ i < k -> lc b' d j' i = lc b d j' i) ∧
        lc b' d j <$> seqZ k (width b - k) =
        walk_from (lc b d j k) (lc b d j <$> seqZ (k + 1) (width b - k - 1)).
  Proof.
    induction fuel as [|fuel IH]; intros b j k ch Hsh Hsq Hj Hk Hfuel;
      [lia|].
    simpl.
    assert (_is_valid b (at_lk (width b) d j k) = true) as Hv
      by by apply valid_at.
    destruct (_is_valid b (at_lk (width b) d j (k + 1))) eqn:Hnext.
    2:{ exists b, ch.
        assert (k = width b - 1) as Hlast.
        { apply is_valid_false in Hnext.
          destruct (decide (k = width b - 1)); [done|]. exfalso.
          apply Hnext. apply is_valid_spec. apply valid_at; [done..|lia]. }
        split_and!; auto.
        replace (width b - k) with 1 by lia.
        replace (width b - k - 1) with 0 by lia. done. }
    assert (0 <= k + 1 < width b) as Hk1.
    { apply valid_at in Hnext; [lia|done..]. }
    rewrite (get_valid b Hsh Hsq _ Hv), (get_valid b Hsh Hsq _ Hnext).
    simpl. fold (lc b d j k). fold (lc b d j (k + 1)).
    assert (seqZ k (width b - k) = k :: seqZ (k + 1) (width b - k - 1))
      as Ecut.
    { rewrite seqZ_cons by lia. repeat f_equal; lia. }
    assert (lc b d j <$> seqZ (k + 1) (width b - k - 1) =
            lc b d j (k + 1)
              :: (lc b d j <$> seqZ (k + 1 + 1) (width b - (k + 1) - 1)))
      as ->.
    { rewrite seqZ_cons by lia. rewrite fmap_cons. repeat f_equal; lia. }
    cbn [walk_from].
    (* the walk moves on over an unchanged board *)
    assert (exists b' ch',
      merge_while fuel (- d.1, - d.2) b (at_lk (width b) d j (k + 1))
        (_move_position (at_lk (width b) d j (k + 1)) (- d.1, - d.2)) ch
        = Ok (b', ch') ∧
      shaped b' ∧ width b' = width b ∧ height b' = height b ∧
      (count_tiles b' <= count_tiles b)%nat ∧
      (ch = true -> ch' = true) ∧
      (ch' = false -> b' = b) ∧
      (ch' = true -> ch = true ∨ (count_tiles b' < count_tiles b)%nat) ∧
      (forall j' i, 0 <= j' < width b -> 0 <= i < width b ->
         j' ≠ j ∨ i < k -> lc b' d j' i = lc b d j' i) ∧
      lc b' d j <$> seqZ k (width b - k) =
      lc b d j k ::
        walk_from (lc b d j (k + 1))
          (lc b d j <$> seqZ (k + 1 + 1) (width b - (k + 1) - 1)))
      as Hskip.
    { destruct (IH b j (k + 1) ch Hsh Hsq Hj Hk1 ltac:(lia))
        as (b' & ch' & Hrun & Hsh' & Hw & Hh & Hcnt & Hf1 & Hf2 & Hf3
            & Hframe & Hline).
      rewrite <- (move_back_at (width b) d j (k + 1) Hd) in Hrun.
      exists b', ch'. split_and!; auto.
      - intros j' i Hj' Hi Hor. apply Hframe; [done..|lia].
      - rewrite Ecut, fmap_cons. rewrite Hframe by lia.
        replace (width b - k - 1) with (width b - (k + 1)) by lia.
        by rewrite Hline. }
    destruct (lc b d j k) as [ft|] eqn:Hft; [|done].
    destruct (lc b d j (k + 1)) as [st|] eqn:Hst; [|done].
    unfold merge. destruct (value ft =? value st) eqn:Heq; [|done].
    clear Hskip.
    rewrite (set_valid b Hsh Hsq _ _ Hv). simpl.
    set (b1 := put b (at_lk (width b) d j k) (Some (mkTile (value ft * 2)))).
    assert (shaped b1) as Hsh1 by by apply put_shaped.
    assert (square b1) as Hsq1 by done.
    rewrite (set_valid b1 Hsh1 Hsq1 _ None Hnext). simpl.
    set (b2 := put b1 (at_lk (width b) d j (k + 1)) None).
    assert (shaped b2) as Hsh2 by by apply put_shaped.
    assert (forall j' i, 0 <= j' < width b -> 0 <= i < width b ->
              lc b2 d j' i =
              if decide (j' = j ∧ i = k + 1) then None
              else if decide (j' = j ∧ i = k)
                   then Some (mkTile (value ft * 2))
              else lc b d j' i) as Hpt2.
    { intros j' i Hj' Hi. unfold b2.
      change (width b) with (width b1) at 1.
      rewrite lc_put by done. case_decide; [done|].
      unfold b1. by rewrite lc_put. }
    destruct (IH b2 j (k + 1) true Hsh2 Hsq1 Hj Hk1)
      as (b' & ch' & Hrun & Hsh' & Hw & Hh & Hcnt & Hf1 & Hf2 & Hf3
          & Hframe & Hline).
    { change (width b2) with (width b). lia. }
    change (width b2) with (width b) in *.
    rewrite <- (move_back_at (width b) d j (k + 1) Hd) in Hrun.
    assert (count_tiles b2 < count_tiles b)%nat as Hless.
    { pose proof (count_put b1 Hsh1 Hsq1 _ None Hnext) as H1.
      pose proof (count_put b Hsh Hsq _ (Some (mkTile (value ft * 2))) Hv)
        as H2.
      fold b1 in H2. fold b2 in H1.
      fold (lc b d j k) in H2. rewrite Hft in H2.
      assert (cell b1 (at_lk (width b) d j (k + 1)) = Some st) as Hc1.
      { unfold b1. rewrite (cell_put_ne b Hsh Hsq) by
          (done || (intros [_ ?]%at_lk_inj; [lia|done])).
        exact Hst. }
      rewrite Hc1 in H1. simpl in *. lia. }
    rewrite (Hf1 eq_refl) in *.
    exists b', true. split_and!; auto; try lia; try done.
    - intros j' i Hj' Hi Hor. rewrite Hframe by (done || lia).
      rewrite Hpt2 by done. lk_cases.
    - rewrite Ecut, fmap_cons. rewrite Hframe by lia. rewrite Hpt2 by lia.
      replace (width b - k - 1) with (width b - (k + 1)) by lia.
      rewrite Hline. rewrite Hpt2 by lia.
      assert (lc b2 d j <$> seqZ (k + 1 + 1) (width b - (k + 1) - 1)
              = lc b d j <$> seqZ (k + 1 + 1) (width b - (k + 1) - 1)) as ->.
      { apply list_fmap_ext. intros i x [-> Hx]%lookup_seqZ.
        rewrite Hpt2 by lia. lk_cases. }
      lk_cases.
  Qed.

Lemma find_starts_unit (b : Board) :
    square b ->
    _find_starts b d = (fun j => at_lk (width b) d j 0) <$> range (width b).
  Proof.
    intros Hsq. unfold square in Hsq. unfold _find_starts, range.
    rewrite <- Hsq.
    destruct Hd as [-> | [-> | [-> | ->]]]; unfold at_lk; simpl;
      apply list_fmap_ext; intros i x [-> Hx]%lookup_seqZ; f_equal; lia.
  Qed.

Lemma line_cons (b : Board) (j : Z) :
    0 < width b ->
    line b d j = lc b d j 0 :: (lc b d j <$> seqZ (0 + 1) (width b - 0 - 1)).
  Proof.
    intros Hn. unfold line, range. rewrite seqZ_cons by lia.
    rewrite fmap_cons. repeat f_equal; lia.
  Qed.

Lemma line_ext (b b' : Board) (j : Z) :
    width b' = width b ->
    (forall i, 0 <= i < width b -> lc b' d j i = lc b d j i) ->
    line b' d j = line b d j.
  Proof.
    intros Hw Hpt. unfold line. rewrite Hw. apply list_fmap_ext.
    intros i x [-> Hx]%lookup_seqZ. apply Hpt. lia.
  Qed.

Lemma merge_pass_unit (fuel : nat) (b : Board) (ch : bool) :
    shaped b -> square b -> width b < Z.of_nat fuel ->
    exists b' ch',
      merge_pass fuel b d ch = Ok (b', ch') ∧
      shaped b' ∧ width b' = width b ∧ height b' = height b ∧
      (count_tiles b' <= count_tiles b)%nat ∧
      (ch = true -> ch' = true) ∧
      (ch' = false -> b' = b) ∧
      (ch' = true -> ch = true ∨ (count_tiles b' < count_tiles b)%nat) ∧
      forall j, 0 <= j < width b ->
        line b' d j = walk_line (line b d j).
  Proof.
    intros Hsh Hsq Hfuel. unfold merge_pass.
    rewrite find_starts_unit, for_each_fmap by done.
    set (Inv := fun (rest : list Z) (s : Board * bool) =>
      NoDup rest ∧ (forall j, j ∈ rest -> 0 <= j < width b) ∧
      shaped s.1 ∧ width s.1 = width b ∧ height s.1 = height b ∧
      (count_tiles s.1 <= count_tiles b)%nat ∧
      (ch = true -> s.2 = true) ∧
      (s.2 = false -> s.1 = b) ∧
      (s.2 = true -> ch = true ∨ (count_tiles s.1 < count_tiles b)%nat) ∧
      forall j, 0 <= j < width b ->
        (j ∈ rest -> forall i, 0 <= i < width b ->
                     lc s.1 d j i = lc b d j i) ∧
        (j ∉ rest -> line s.1 d j = walk_line (line b d j))).
    edestruct (for_each_inv Inv) with (l := range (width b)) (s := (b, ch))
      as ([b' ch'] & Hrun & Hnd & Hin & Hsh' & Hw & Hh & Hcnt & Hg1 & Hg2
          & Hg3 & Hlines);
      [| |exists b', ch'; split; [exact Hrun|]].
    - intros a rest [bs chs]
        (Hnd & Hin & Hsh' & Hw & Hh & Hcnt & Hg1 & Hg2 & Hg3 & Hlines).
      simpl in *. apply NoDup_cons in Hnd as [Hna Hnd].
      assert (0 <= a < width b) as Ha by (apply Hin; left).
      assert (square bs) as Hsq' by (unfold square in *; congruence).
      destruct (merge_while_unit fuel bs a 0 chs Hsh' Hsq')
        as (b1 & ch1 & Hrun & Hsh1 & Hw1 & Hh1 & Hcnt1 & Hf1 & Hf2 & Hf3
            & Hframe & Hline);
        [lia..|].
      rewrite <- (move_back_at (width bs) d a 0 Hd) in Hrun.
      rewrite Hw in Hrun at 1 2.
      exists (b1, ch1). split; [exact Hrun|]. unfold Inv. simpl.
      rewrite Hw in *.
      split_and!; auto; try congruence; try lia.
      { intros j Hj. apply Hin. by right. }
      { intros ->. rewrite Hf2 by done. apply Hg2.
        destruct chs; [|done]. by rewrite Hf1 in *. }
      { intros ->. destruct (Hf3 eq_refl) as [->|?]; [|right; lia].
        destruct Hg3 as [?|?]; [done|by left|right; lia]. }
      intros j Hj. destruct (Hlines j Hj) as [Hyet Hdone].
      destruct (decide (j = a)) as [->|Hne].
      + split; [done|]. intros _.
        assert (line bs d a = line b d a) as <-.
        { apply line_ext; [done|]. apply Hyet. left. }
        assert (0 < width bs) as Hpos by lia.
        rewrite (line_cons bs a Hpos). simpl. rewrite Hw, <- Hline.
        unfold line, range. by rewrite Hw1, Z.sub_0_r.
      + split.
        * intros Hjr i Hi. rewrite Hframe by (lia || auto).
          apply Hyet; [by right|done].
        * intros Hjr. rewrite <- Hdone.
          -- apply line_ext; [lia|]. intros i Hi. apply Hframe; lia || auto.
          -- intros [->|?]%elem_of_cons; done.
    - unfold Inv. simpl. split_and!; auto.
      + apply NoDup_seqZ.
      + intros j Hj%elem_of_seqZ. lia.
      + intros j Hj. split; [done|]. intros Hnin. exfalso. apply Hnin.
        apply elem_of_seqZ. lia.
    - simpl in *. split_and!; auto.
      intros j Hj. apply Hlines; [done|]. apply not_elem_of_nil.
  Qed.

Lemma merge_while_idle (fuel : nat) :
    forall (b : Board) (j k : Z) (ch : bool),
      shaped b -> square b ->
      0 <= j < width b -> 0 <= k < width b ->
      width b - k < Z.of_nat fuel ->
      (forall i t1 t2, k <= i -> i + 1 < width b ->
         lc b d j i = Some t1 -> lc b d j (i + 1) = Some t2 ->
         value t1 ≠ value t2) ->
      merge_while fuel (- d.1, - d.2) b (at_lk (width b) d j k)
        (at_lk (width b) d j (k + 1)) ch = Ok (b, ch).
  Proof.
    induction fuel as [|fuel IH]; intros b j k ch Hsh Hsq Hj Hk Hfuel Hneq;
      [lia|].
    simpl.
    assert (_is_valid b (at_lk (width b) d j k) = true) as Hv
      by by apply valid_at.
    destruct (_is_valid b (at_lk (width b) d j (k + 1))) eqn:Hnext; [|done].
    assert (0 <= k + 1 < width b) as Hk1.
    { apply valid_at in Hnext; [lia|done..]. }
    rewrite (get_valid b Hsh Hsq _ Hv), (get_valid b Hsh Hsq _ Hnext).
    simpl. fold (lc b d j k). fold (lc b d j (k + 1)).
    rewrite move_back_at by done.
    assert (merge_while fuel (- d.1, - d.2) b (at_lk (width b) d j (k + 1))
              (at_lk (width b) d j (k + 1 + 1)) ch = Ok (b, ch)) as Hgo.
    { apply IH; auto; try lia. intros i t1 t2 Hi. apply Hneq. lia. }
    destruct (lc b d j k) as [ft|] eqn:Hft; [|done].
    destruct (lc b d j (k + 1)) as [st|] eqn:Hst; [|done].
    unfold merge. destruct (Z.eqb_spec (value ft) (value st)) as [Heq|]; [|done].
    exfalso. apply (Hneq k ft st); auto; lia.
  Qed.

Lemma merge_pass_idle (fuel : nat) (b : Board) (ch : bool) :
    shaped b -> square b -> width b < Z.of_nat fuel ->
    (forall j i t1 t2, 0 <= j < width b -> 0 <= i -> i + 1 < width b ->
       lc b d j i = Some t1 -> lc b d j (i + 1) = Some t2 ->
       value t1 ≠ value t2) ->
    merge_pass fuel b d ch = Ok (b, ch).
  Proof.
    intros Hsh Hsq Hfuel Hneq. unfold merge_pass.
    rewrite find_starts_unit, for_each_fmap by done.
    set (Inv := fun (rest : list Z) (s : Board * bool) =>
      (forall j, j ∈ rest -> 0 <= j < width b) ∧ s = (b, ch)).
    edestruct (for_each_inv Inv) with (l := range (width b)) (s := (b, ch))
      as (s' & Hrun & _ & ->); [| |exact Hrun].
    - intros a rest s [Hin ->]. simpl.
      assert (0 <= a < width b) as Ha by (apply Hin; left).
      exists (b, ch). split.
      + rewrite move_back_at by done.
        apply merge_while_idle; auto; try lia.
        intros i t1 t2 Hi Hi'. apply Hneq; auto; lia.
      + split; [|done]. intros j Hj. apply Hin. by right.
    - split; [|done]. intros j Hj%elem_of_seqZ. lia.
  Qed.
End unit_direction.

(** * Lines as lists *)

Lemma all_none_replicate (l : list (option Tile)) :
  (forall i c, l !! i = Some c -> c = None) ->
  l = replicate (length l) None.
Proof.
  induction l as [|c l IH]; intros H; [done|]. simpl.
  rewrite (H 0%nat c) by done. f_equal. apply IH.
  intros i c' Hc'. by apply (H (S i)).
Qed.

Lemma tiles_replicate_none (m : nat) : tiles (replicate m None) = [].
Proof. induction m as [|m IH]; [done|]. exact IH. Qed.

Lemma tiles_pad (n : Z) (ts : list Tile) : tiles (pad n ts) = ts.
Proof.
  unfold pad, tiles. rewrite omap_app.
  fold (tiles (replicate (Z.to_nat n - length ts) None)).
  rewrite tiles_replicate_none, app_nil_r.
  induction ts as [|t ts IH]; [done|]. cbn. by rewrite IH.
Qed.

(** A list in which nothing follows an empty cell is its tiles and then
    empty cells. *)
Lemma packed_pad (l : list (option Tile)) :
  (forall i c, l !! i = Some None -> l !! S i = Some c -> c = None) ->
  l = pad (Z.of_nat (length l)) (tiles l).
Proof.
  unfold pad. rewrite Nat2Z.id.
  induction l as [|c l IH]; intros H; [done|].
  destruct c as [t|].
  - cbn. f_equal. apply IH. intros i c Hi HS. by apply (H (S i)).
  - assert (l = replicate (length l) None) as Hl.
    { apply all_none_replicate. intros i. induction i as [|i IHi].
      - intros c Hc. by apply (H 0%nat).
      - intros c Hc. destruct (l !! i) as [c'|] eqn:Hc'.
        + apply (H (S i)); [|done]. simpl. rewrite Hc'.
          by rewrite (IHi c').
        + apply lookup_ge_None in Hc'. apply lookup_lt_Some in Hc. lia. }
    assert (tiles l = []) as Ht
      by (rewrite Hl; apply tiles_replicate_none).
    cbn. fold (tiles l). rewrite Ht. simpl. by rewrite Hl at 1.
Qed.

Lemma tiles_walk_none (l : list (option Tile)) :
  tiles (walk_from None l) = tiles (walk_line l).
Proof. destruct l as [|c l]; done. Qed.

(** On a packed line the merge walk and a compaction give the rule of
    the game. *)
Lemma walk_packed (m : nat) :
  forall ts : list Tile,
    (length ts <= m)%nat ->
    forall r, tiles (walk_line ((Some <$> ts) ++ replicate r None))
              = merge_pairs ts.
Proof.
  induction m as [|m IH]; intros ts Hlen r.
  { destruct ts; [|simpl in Hlen; lia]. simpl.
    destruct r as [|r]; [done|]. simpl.
    rewrite tiles_walk_none.
    clear. induction r as [|r IHr]; [done|]. simpl.
    by rewrite tiles_walk_none. }
  destruct ts as [|a [|b ts]].
  - apply (IH []). simpl. lia.
  - simpl. destruct r as [|r]; [done|]. simpl. unfold tiles. cbn.
    fold (tiles (walk_from None (replicate r None))).
    rewrite tiles_walk_none.
    pose proof (IH [] ltac:(simpl; lia) r) as Hnil. simpl in Hnil.
    by rewrite Hnil.
  - simpl in Hlen. cbn [fmap list_fmap app walk_line walk_from merge_pairs].
    destruct (value a =? value b).
    + unfold tiles. cbn.
      fold (tiles (walk_from None ((Some <$> ts) ++ replicate r None))).
      rewrite tiles_walk_none. f_equal. apply IH. lia.
    + unfold tiles. cbn. f_equal.
      apply (IH (b :: ts)). simpl. lia.
Qed.

Lemma merge_pairs_once (m : nat) :
  forall ts : list Tile,
    (length ts <= m)%nat -> once_merged ts (merge_pairs ts).
Proof.
  induction m as [|m IH]; intros ts Hlen.
  { destruct ts; [constructor|simpl in Hlen; lia]. }
  destruct ts as [|a [|b ts]]; simpl in *.
  - constructor.
  - repeat constructor.
  - destruct (Z.eqb_spec (value a) (value b)).
    + apply once_pair; [done|]. apply IH. lia.
    + apply once_keep. apply (IH (b :: ts)). simpl. lia.
Qed.

Lemma once_merged_length (l l' : list Tile) :
  once_merged l l' -> (length l' <= length l)%nat.
Proof. induction 1; simpl; lia. Qed.

Lemma line_length (b : Board) (d : pos) (j : Z) :
  length (line b d j) = Z.to_nat (width b).
Proof. unfold line, range. by rewrite length_fmap, length_seqZ. Qed.

Lemma line_lookup (b : Board) (d : pos) (j : Z) (i : nat) (c : option Tile) :
  line b d j !! i = Some c ->
  c = lc b d j (Z.of_nat i) ∧ Z.of_nat i < width b.
Proof.
  unfold line, range. rewrite list_lookup_fmap.
  destruct (seqZ 0 (width b) !! i) as [x|] eqn:Hx; [|done].
  apply lookup_seqZ in Hx as [-> Hx]. simpl. intros [= <-]. done.
Qed.

Lemma settled_line (b : Board) (d : pos) (j : Z) :
  0 <= j < width b -> settled d b (width b) ->
  line b d j = pad (width b) (tiles (line b d j)).
Proof.
  intros Hj Hset.
  rewrite (packed_pad (line b d j)) at 1.
  - rewrite line_length. f_equal. unfold pad. lia.
  - intros i c [Hi Hlt]%line_lookup [-> HS]%line_lookup.
    apply (Hset j (Z.of_nat i)); auto; lia.
Qed.

(** * Full boards *)

Lemma row_full (row : list (option Tile)) :
  length (omap id row) = length row <->
  forall i c, row !! i = Some c -> c ≠ None.
Proof.
  induction row as [|c row IH].
  { split; [intros _ i c Hc; done|done]. }
  pose proof (omap_id_length row) as Hle.
  destruct c as [t|]; cbn.
  - split.
    + intros Hlen i c Hc. destruct i as [|i]; simpl in Hc.
      * by injection Hc as <-.
      * apply (proj1 IH) with i; [lia|done].
    + intros Hall. f_equal. apply IH. intros i c Hc.
      by apply (Hall (S i)).
  - split; [lia|]. intros Hall. by destruct (Hall 0%nat None).
Qed.

Lemma rows_full (m : nat) (rows : list (list (option Tile))) :
  Forall (fun row => length row = m) rows ->
  sum_list_with (fun row => length (omap id row)) rows = (length rows * m)%nat
  <-> Forall (fun row => length (omap id row) = length row) rows.
Proof.
  induction 1 as [|row rows Hrow Hrows IH]; simpl.
  { split; [constructor|done]. }
  pose proof (omap_id_length row) as Hle.
  assert (sum_list_with (fun row => length (omap id row)) rows
          <= length rows * m)%nat as Hsum.
  { clear IH. induction Hrows as [|r rs Hr _ IHr]; simpl; [lia|].
    pose proof (omap_id_length r). lia. }
  rewrite Forall_cons. rewrite <- IH. lia.
Qed.

Lemma count_full (b : Board) :
  shaped b -> square b ->
  count_tiles b = (Z.to_nat (width b) * Z.to_nat (height b))%nat <->
  forall p, _is_valid b p = true -> cell b p ≠ None.
Proof.
  intros Hsh Hsq. destruct Hsh as [Hlen Hrows]. pose proof Hrows as Hrows'.
  unfold count_tiles.
  replace (Z.to_nat (width b) * Z.to_nat (height b))%nat
    with (length (board b) * Z.to_nat (width b))%nat by lia.
  rewrite (rows_full _ _ Hrows). rewrite Forall_lookup.
  unfold square in Hsq. split.
  - intros Hfull p Hv. apply is_valid_spec in Hv as Hp.
    destruct (valid_row b (conj Hlen Hrows') Hsq p Hv)
      as (row & Hrow & Hlr & Hy).
    destruct (lookup_lt_is_Some_2 row (Z.to_nat p.2) Hy) as [c Hc].
    unfold cell. rewrite Hrow, Hc.
    by apply (proj1 (row_full row) (Hfull _ _ Hrow) (Z.to_nat p.2)).
  - intros Hall i row Hrow. apply row_full. intros k c Hc ->.
    apply (Hall (Z.of_nat i, Z.of_nat k)).
    + apply is_valid_spec. simpl.
      pose proof (lookup_lt_Some _ _ _ Hrow) as Hi.
      pose proof (lookup_lt_Some _ _ _ Hc) as Hk.
      rewrite (proj1 (Forall_lookup _ _) Hrows' _ _ Hrow) in Hk. lia.
    + unfold cell. simpl. by rewrite !Nat2Z.id, Hrow, Hc.
Qed.

Lemma not_stuck_room (b : Board) (d : pos) :
  shaped b -> square b -> ¬ all_stuck b d ->
  (count_tiles b < Z.to_nat (width b) * Z.to_nat (height b))%nat.
Proof.
  intros Hsh Hsq Hns. pose proof (count_le_area b Hsh) as Hle.
  destruct (decide (count_tiles b
                    = (Z.to_nat (width b) * Z.to_nat (height b))%nat))
    as [Heq|Hne]; [|lia].
  exfalso. apply Hns. intros p Hv. unfold stuck_at.
  destruct (_is_valid b (_move_position p d)) eqn:Hq; [|auto].
  right; right. by apply (proj1 (count_full b Hsh Hsq) Heq).
Qed.

(** * spawn *)

Lemma in_empties (b : Board) (p : pos) :
  In p (empties b) <-> _is_valid b p = true ∧ cell b p = None.
Proof.
  unfold empties. rewrite filter_In, in_scan. unfold is_empty.
  destruct (cell b p); simpl; split; intros [? ?]; done.
Qed.

Lemma spawn_options_spec (b : Board) :
  shaped b -> square b -> spawn_options b = Ok (empties b).
Proof.
  intros Hsh Hsq. unfold spawn_options, empties.
  rewrite for_each_nested. fold (scan (width b) (height b)).
  assert (forall l acc, (forall p, In p l -> _is_valid b p = true) ->
    for_each l
      (fun (p : pos) (options : list pos) =>
         t ← _get b (p.1, p.2);
         match t with
         | Some _ => Ok options
         | None => Ok (options ++ [(p.1, p.2)])
         end) acc = Ok (acc ++ List.filter (is_empty b) l)) as Hgen.
  { induction l as [|[x y] l IH]; intros acc Hl; simpl.
    - by rewrite app_nil_r.
    - rewrite (get_valid b Hsh Hsq) by (apply Hl; by left). simpl.
      unfold is_empty at 1. destruct (cell b (x, y)); simpl.
      + apply IH. intros p Hp. apply Hl. by right.
      + rewrite IH by (intros p Hp; apply Hl; by right).
        by rewrite <- app_assoc. }
  apply (Hgen _ []). intros p. apply in_scan.
Qed.

Lemma put_put (b : Board) (p : pos) (x y : option Tile) :
  shaped b -> square b -> _is_valid b p = true ->
  put (put b p x) p y = put b p y.
Proof.
  intros Hsh Hsq Hv.
  assert (shaped (put b p x)) as Hsh1 by by apply put_shaped.
  apply board_ext; auto using put_shaped.
  intros q Hq. rewrite (cell_put (put b p x)) by done.
  rewrite !(cell_put b) by done. by case_decide.
Qed.

Lemma random_choice_in (rnd : draws) (options : list pos) :
  options ≠ [] -> In (random_choice rnd options) options.
Proof.
  intros Hne. unfold random_choice. apply nth_In.
  apply Nat.mod_upper_bound. destruct options; [done|]. simpl. lia.
Qed.

Lemma spawn_spec (rnd : draws) (b : Board) :
  shaped b -> square b ->
  (empties b = [] -> spawn rnd b = Ok (b, PyBool false)) ∧
  (empties b ≠ [] ->
   exists b', spawn rnd b = Ok (b', PyNone) ∧ spawned b b').
Proof.
  intros Hsh Hsq. unfold spawn. rewrite spawn_options_spec by done. simpl.
  split.
  - intros ->. done.
  - intros Hne.
    pose proof (random_choice_in rnd (empties b) Hne) as Hin.
    apply in_empties in Hin as [Hv Hc].
    destruct (empties b) as [|p0 l] eqn:He; [done|].
    cbn [length Nat.eqb]. rewrite <- He in *. clear He.
    set (xy := random_choice rnd (empties b)) in *.
    rewrite (set_valid b Hsh Hsq _ _ Hv). simpl.
    destruct (below_tenth rnd).
    + rewrite (set_valid (put b xy (Some Tile_default))) by
        (done || by apply put_shaped).
      simpl. rewrite put_put by done.
      eexists. split; [done|]. exists xy, 4. auto.
    + eexists. split; [done|]. exists xy, 2. auto.
Qed.

Lemma spawned_facts (b b' : Board) :
  shaped b -> square b -> spawned b b' ->
  shaped b' ∧ width b' = width b ∧ height b' = height b ∧
  count_tiles b' = S (count_tiles b).
Proof.
  intros Hsh Hsq (p & v & Hv & Hc & _ & ->).
  split_and!; auto using put_shaped.
  pose proof (count_put b Hsh Hsq p (Some (mkTile v)) Hv) as H.
  rewrite Hc in H. simpl in H. lia.
Qed.

(** * move *)

Lemma move_split (fuel : nat) (rnd : draws) (b : Board) (d : pos) :
  move fuel rnd b d =
  match move_steps fuel b d with
  | Ok (b3, ch) => if ch then fst <$> spawn rnd b3 else Ok b3
  | Raise e => Raise e
  | OutOfFuel => OutOfFuel
  end.
Proof.
  unfold move, move_steps.
  destruct (_compact fuel b d) as [[b1 c1]| |]; simpl; [|done..].
  destruct (merge_pass fuel b1 d c1) as [[b2 c2]| |]; simpl; [|done..].
  destruct (_compact fuel b2 d) as [[b3 c3]| |]; simpl; [|done..].
  destruct (c3 || c2); [|done].
  destruct (spawn rnd b3) as [[b4 r]| |]; done.
Qed.

Lemma empties_nil (b : Board) :
  shaped b -> square b -> empties b = [] ->
  count_tiles b = (Z.to_nat (width b) * Z.to_nat (height b))%nat.
Proof.
  intros Hsh Hsq He. apply count_full; [done..|].
  intros p Hv Hc.
  assert (In p (empties b)) as Hin by by apply in_empties.
  rewrite He in Hin. destruct Hin.
Qed.

(** After the three steps, [move] returns the board as it is when
    nothing changed, and spawns one tile on it when something did. *)
Lemma move_finish (fuel : nat) (rnd : draws) (b b3 : Board) (d : pos)
    (ch : bool) :
  shaped b3 -> square b3 ->
  move_steps fuel b d = Ok (b3, ch) ->
  (ch = true ->
   (count_tiles b3 < Z.to_nat (width b3) * Z.to_nat (height b3))%nat) ->
  exists b', move fuel rnd b d = Ok b' ∧
    (ch = false ∧ b' = b3 ∨ ch = true ∧ spawned b3 b').
Proof.
  intros Hsh Hsq Hsteps Hroom. rewrite move_split, Hsteps. simpl.
  destruct ch.
  2:{ exists b3. split; [done|]. by left. }
  destruct (spawn_spec rnd b3 Hsh Hsq) as [_ Hplace].
  destruct Hplace as (b' & -> & Hsp).
  { intros He. apply empties_nil in He; [|done..].
    specialize (Hroom eq_refl). lia. }
  simpl. exists b'. split; [done|]. by right.
Qed.

Lemma move_steps_unit (fuel : nat) (b : Board) (d : pos) :
  unit_dir d -> shaped b -> square b -> width b < Z.of_nat fuel ->
  exists b3 ch,
    move_steps fuel b d = Ok (b3, ch) ∧
    shaped b3 ∧ width b3 = width b ∧ height b3 = height b ∧
    (count_tiles b3 <= count_tiles b)%nat ∧
    all_stuck b3 d ∧
    (ch = false -> b3 = b) ∧
    (ch = true ->
     b3 ≠ b ∧
     (count_tiles b3 < Z.to_nat (width b) * Z.to_nat (height b))%nat) ∧
    forall j, 0 <= j < width b ->
      line b3 d j = pad (width b) (merge_pairs (tiles (line b d j))).
Proof.
  intros Hd Hsh Hsq Hfuel. unfold move_steps.
  destruct (compact_any d fuel b Hsh Hsq Hfuel)
    as (b1 & c1 & Hrun1 & Hsh1 & Hw1 & Hh1 & Hcnt1 & Hno1 & Hyes1).
  destruct (compact_unit d Hd fuel b Hsh Hsq Hfuel)
    as (b1' & c1' & Hrun1' & Hset1 & Htl1).
  rewrite Hrun1 in Hrun1'. injection Hrun1' as <- <-.
  rewrite Hrun1. simpl.
  assert (square b1) as Hsq1 by (unfold square in *; congruence).
  destruct (merge_pass_unit d Hd fuel b1 c1 Hsh1 Hsq1 ltac:(lia))
    as (b2 & c2 & Hrun2 & Hsh2 & Hw2 & Hh2 & Hcnt2 & Hf1 & Hf2 & Hf3
        & Hwalk).
  rewrite Hrun2. simpl.
  assert (square b2) as Hsq2 by (unfold square in *; congruence).
  destruct (compact_any d fuel b2 Hsh2 Hsq2 ltac:(lia))
    as (b3 & c3 & Hrun3 & Hsh3 & Hw3 & Hh3 & Hcnt3 & Hno3 & Hyes3).
  destruct (compact_unit d Hd fuel b2 Hsh2 Hsq2 ltac:(lia))
    as (b3' & c3' & Hrun3' & Hset3 & Htl3).
  rewrite Hrun3 in Hrun3'. injection Hrun3' as <- <-.
  rewrite Hrun3. simpl.
  assert (square b3) as Hsq3 by (unfold square in *; congruence).
  assert (all_stuck b3 d) as Hst3.
  { apply settled_all_stuck; [done..|]. by rewrite Hw3. }
  exists b3, (c3 || c2). split_and!; auto; try lia.
  - intros [-> ->]%orb_false_iff.
    destruct (Hno3 eq_refl) as [-> _]. rewrite Hf2 by done.
    destruct c1; [by specialize (Hf1 eq_refl)|]. by destruct Hno1.
  - intros Hch.
    pose proof (count_le_area b Hsh) as Harea.
    destruct c1.
    { split.
      - intros ->. by apply Hyes1.
      - pose proof (not_stuck_room b d Hsh Hsq (Hyes1 eq_refl)). lia. }
    destruct (Hno1 eq_refl) as [-> Hst].
    destruct c2.
    + destruct (Hf3 eq_refl) as [?|?]; [done|].
      split; [intros Heq; subst b3|]; lia.
    + simpl in Hch. rewrite orb_false_r in Hch. subst c3.
      destruct Hyes3; [done|]. by rewrite Hf2.
  - intros j Hj.
    rewrite (settled_line b3 d j) by (rewrite ?Hw3; (lia || done)).
    rewrite Hw3, Hw2, Hw1. f_equal.
    rewrite Htl3 by lia. rewrite Hwalk by lia.
    rewrite (settled_line b1 d j) by (rewrite ?Hw1; (lia || done)).
    rewrite Htl1 by lia. unfold pad.
    apply (walk_packed (length (tiles (line b d j)))). done.
Qed.

(** * Moves that change nothing *)

Lemma idle_at (b : Board) (d p : pos) :
  idle b d = true -> _is_valid b p = true ->
  can_slide b d p = false ∧ can_merge b d p = false.
Proof.
  unfold idle. rewrite forallb_forall. intros H Hv%in_scan.
  apply H in Hv. apply andb_true_iff in Hv as [H1 H2].
  by rewrite !negb_true_iff in *.
Qed.

Lemma idle_stuck (b : Board) (d : pos) : idle b d = true -> all_stuck b d.
Proof.
  intros Hidle p Hv. destruct (idle_at b d p Hidle Hv) as [Hs _].
  unfold can_slide, is_empty in Hs. unfold stuck_at.
  destruct (cell b p); [|by left]. right.
  destruct (_is_valid b (_move_position p d)); [|by left]. right.
  by destruct (cell b (_move_position p d)).
Qed.

Lemma idle_no_pair (b : Board) (d : pos) :
  unit_dir d -> square b -> idle b d = true ->
  forall j i t1 t2, 0 <= j < width b -> 0 <= i -> i + 1 < width b ->
    lc b d j i = Some t1 -> lc b d j (i + 1) = Some t2 ->
    value t1 ≠ value t2.
Proof.
  intros Hd Hsq Hidle j i t1 t2 Hj Hi Hi1 Hc1 Hc2 Heq.
  assert (_is_valid b (at_lk (width b) d j (i + 1)) = true) as Hv
    by (apply valid_at; [done..|lia]).
  destruct (idle_at b d _ Hidle Hv) as [_ Hm].
  unfold can_merge in Hm. rewrite move_at in Hm by done.
  replace (i + 1 - 1) with i in Hm by lia.
  unfold lc in Hc1, Hc2. rewrite Hc1, Hc2 in Hm.
  assert (_is_valid b (at_lk (width b) d j i) = true) as Hv2
    by (apply valid_at; [done..|lia]).
  rewrite Hv2 in Hm. simpl in Hm. apply Z.eqb_neq in Hm. congruence.
Qed.

Lemma move_steps_idle (fuel : nat) (b : Board) (d : pos) :
  unit_dir d -> shaped b -> square b -> width b < Z.of_nat fuel ->
  idle b d = true -> move_steps fuel b d = Ok (b, false).
Proof.
  intros Hd Hsh Hsq Hfuel Hidle. unfold move_steps.
  destruct (compact_any d fuel b Hsh Hsq Hfuel)
    as (b1 & c1 & Hrun1 & _ & _ & _ & _ & Hno1 & Hyes1).
  destruct c1; [by destruct Hyes1; [|apply idle_stuck]|].
  destruct Hno1 as [-> _]; [done|].
  rewrite Hrun1. simpl.
  rewrite (merge_pass_idle d Hd fuel b false Hsh Hsq Hfuel
             (idle_no_pair b d Hd Hsq Hidle)).
  simpl.
  by rewrite Hrun1.
Qed.

(** * Directions with two non-zero components *)

Lemma find_starts_diagonal (b : Board) (d : pos) :
  d.1 ≠ 0 -> d.2 ≠ 0 -> _find_starts b d = [].
Proof.
  intros H1 H2. unfold _find_starts.
  destruct (Z.eqb_spec d.1 0); [done|].
  destruct (Z.eqb_spec d.2 0); done.
Qed.

Lemma move_steps_diagonal (fuel : nat) (b : Board) (d : pos) :
  d.1 ≠ 0 -> d.2 ≠ 0 ->
  shaped b -> square b -> width b < Z.of_nat fuel ->
  exists b3 ch,
    move_steps fuel b d = Ok (b3, ch) ∧
    shaped b3 ∧ width b3 = width b ∧ height b3 = height b ∧
    count_tiles b3 = count_tiles b ∧
    (ch = false -> b3 = b ∧ all_stuck b d) ∧
    (ch = true ->
     ¬ all_stuck b d ∧
     (count_tiles b3 < Z.to_nat (width b) * Z.to_nat (height b))%nat).
Proof.
  intros H1 H2 Hsh Hsq Hfuel. unfold move_steps.
  destruct (compact_any d fuel b Hsh Hsq Hfuel)
    as (b1 & c1 & Hrun1 & Hsh1 & Hw1 & Hh1 & Hcnt1 & Hno1 & Hyes1).
  rewrite Hrun1. simpl. unfold merge_pass.
  rewrite find_starts_diagonal by done. simpl.
  assert (square b1) as Hsq1 by (unfold square in *; congruence).
  destruct (compact_any d fuel b1 Hsh1 Hsq1 ltac:(lia))
    as (b3 & c3 & Hrun3 & Hsh3 & Hw3 & Hh3 & Hcnt3 & Hno3 & Hyes3).
  rewrite Hrun3. simpl.
  exists b3, (c3 || c1). split_and!; auto; try congruence.
  - intros [-> ->]%orb_false_iff.
    destruct (Hno3 eq_refl) as [-> _]. by apply Hno1.
  - intros Hch.
    assert (¬ all_stuck b d) as Hns.
    { destruct c1; [by apply Hyes1|].
      rewrite orb_false_r in Hch. subst c3.
      destruct (Hno1 eq_refl) as [-> _]. by apply Hyes3. }
    split; [done|].
    pose proof (not_stuck_room b d Hsh Hsq Hns). lia.
Qed.

(** * Loops that return *)

Lemma bind_Ok_l {A B} (a : A) (k : A -> result B) : mbind k (Ok a) = k a.
Proof. done. Qed.

Lemma for_return_forall {A R} (l : list A) (body : A -> result (option R))
    (ok : A -> bool) (v : R) :
  (forall a, In a l -> body a = Ok (if ok a then None else Some v)) ->
  for_return l body = Ok (if forallb ok l then None else Some v).
Proof.
  induction l as [|a l IH]; intros H; simpl; [done|].
  rewrite (H a) by by left. destruct (ok a); simpl; [|done].
  apply IH. intros x Hx. apply H. by right.
Qed.

Lemma for_return_exists {A R} (l : list A) (body : A -> result (option R))
    (hit : A -> bool) (v : R) :
  (forall a, In a l -> body a = Ok (if hit a then Some v else None)) ->
  for_return l body = Ok (if existsb hit l then Some v else None).
Proof.
  induction l as [|a l IH]; intros H; simpl; [done|].
  rewrite (H a) by by left. destruct (hit a); simpl; [done|].
  apply IH. intros x Hx. apply H. by right.
Qed.

Lemma for_return_column {R} (x : Z) (ys : list Z)
    (body : Z -> Z -> result (option R)) :
  for_return (map (fun y => (x, y)) ys) (fun p => body p.1 p.2) =
  for_return ys (body x).
Proof.
  induction ys as [|y ys IH]; simpl; [done|].
  destruct (body x y) as [[v|]| |]; simpl; auto.
Qed.

Lemma for_return_app {A R} (l1 l2 : list A) (body : A -> result (option R)) :
  for_return (l1 ++ l2) body =
  r ← for_return l1 body;
  match r with Some v => Ok (Some v) | None => for_return l2 body end.
Proof.
  induction l1 as [|a l1 IH]; simpl; [done|].
  destruct (body a) as [[v|]| |]; simpl; auto.
Qed.

Lemma for_return_nested {R} (xs ys : list Z)
    (body : Z -> Z -> result (option R)) :
  for_return xs (fun x => for_return ys (body x)) =
  for_return (list_prod xs ys) (fun p => body p.1 p.2).
Proof.
  induction xs as [|x xs IH]; simpl; [done|].
  rewrite for_return_app, for_return_column.
  destruct (for_return ys (body x)) as [[v|]| |]; simpl; auto.
Qed.

(** * check_win *)

Lemma check_win_scan (b : Board) :
  check_win b = Ok (existsb (existsb is_2048) (board b)).
Proof.
  unfold check_win.
  rewrite (for_return_exists (board b) _ (existsb is_2048) true).
  - simpl. by destruct (existsb (existsb is_2048) (board b)).
  - intros row _.
    rewrite (for_return_exists row _ is_2048 true); [done|].
    intros [t|] _; simpl; [|done]. by destruct (value t =? 2048).
Qed.

Lemma check_win_true (b : Board) :
  check_win b = Ok true <->
  exists row t, In row (board b) ∧ In (Some t) row ∧ value t = 2048.
Proof.
  rewrite check_win_scan. split.
  - intros [= H]. apply existsb_exists in H as (row & Hrow & H).
    apply existsb_exists in H as ([t|] & Ht & H); [|done].
    exists row, t. split_and!; auto. by apply Z.eqb_eq.
  - intros (row & t & Hrow & Ht & Hv). f_equal.
    apply existsb_exists. exists row. split; [done|].
    apply existsb_exists. exists (Some t). split; [done|].
    by apply Z.eqb_eq.
Qed.

(** * check_game_over *)

Lemma check_game_over_scan (g self : Board) :
  shaped g -> square g ->
  check_game_over g self =
  Ok (forallb (blocked_cell g) (scan (width g) (height g))).
Proof.
  intros Hsh Hsq. unfold check_game_over.
  rewrite for_return_nested. fold (scan (width g) (height g)).
  rewrite (for_return_forall _ _ (blocked_cell g) false).
  - simpl. by destruct (forallb (blocked_cell g) _).
  - intros [x y] Hv%in_scan. cbn [fst snd].
    rewrite (get_valid g Hsh Hsq _ Hv), bind_Ok_l. unfold blocked_cell.
    destruct (cell g (x, y)) as [t|]; [|done].
    fold orthogonal.
    apply (for_return_forall orthogonal _ _ false).
    intros dir _. cbv zeta.
    destruct (_is_valid g (_move_position (x, y) dir)) eqn:Hq; [|done].
    cbn [negb orb]. rewrite (get_valid g Hsh Hsq _ Hq), bind_Ok_l.
    destruct (cell g (_move_position (x, y) dir)) as [nt|]; [|done].
    by destruct (value t =? value nt).
Qed.

Lemma blocked_cell_spec (g : Board) (p : pos) :
  blocked_cell g p = true <->
  exists t, cell g p = Some t ∧
    forall direction, In direction orthogonal ->
      _is_valid g (_move_position p direction) = true ->
      exists nt, cell g (_move_position p direction) = Some nt ∧
                 value t ≠ value nt.
Proof.
  unfold blocked_cell. destruct (cell g p) as [t|].
  2:{ split; [done|]. by intros (t & Ht & _). }
  rewrite forallb_forall. split.
  - intros H. exists t. split; [done|]. intros dir Hdir Hq.
    specialize (H dir Hdir). simpl in H. rewrite Hq in H. simpl in H.
    destruct (cell g (_move_position p dir)) as [nt|]; [|done].
    exists nt. split; [done|]. apply negb_true_iff, Z.eqb_neq in H. done.
  - intros (t' & [= <-] & H) dir Hdir. simpl.
    destruct (_is_valid g (_move_position p dir)) eqn:Hq; [|done].
    destruct (H dir Hdir Hq) as (nt & -> & Hne). simpl.
    by apply negb_true_iff, Z.eqb_neq.
Qed.

Lemma check_game_over_global (g self : Board) :
  shaped g -> square g ->
  (check_game_over g self = Ok true <-> game_over g) ∧
  (check_game_over g self = Ok false <-> ¬ game_over g).
Proof.
  intros Hsh Hsq. rewrite (check_game_over_scan g self Hsh Hsq).
  assert (forallb (blocked_cell g) (scan (width g) (height g)) = true
          <-> game_over g) as Hiff.
  { rewrite forallb_forall. unfold game_over. split.
    - intros H. split.
      + intros p Hv%in_scan. apply H, blocked_cell_spec in Hv
          as (t & -> & _). done.
      + intros p dir t Hv%in_scan Hdir Hq Hc.
        apply H, blocked_cell_spec in Hv as (t' & Hc' & Hn).
        rewrite Hc in Hc'. injection Hc' as <-. by apply Hn.
    - intros [Hfull Hnb] p Hv%in_scan. apply blocked_cell_spec.
      destruct (cell g p) as [t|] eqn:Hc; [|by destruct (Hfull p Hv)].
      exists t. split; [done|]. intros dir Hdir Hq. by eapply Hnb. }
  destruct (forallb (blocked_cell g) (scan (width g) (height g))).
  - split; [split; [intros _; by apply Hiff|done]|].
    split; [done|]. intros H. destruct H. by apply Hiff.
  - split; split; try done.
    + intros H%Hiff. done.
    + intros _ H%Hiff. done.
Qed.

(** * Grids that are not square *)

Lemma get_out_of_shape (b : Board) (p : pos) :
  shaped b -> 0 <= p.1 -> 0 <= p.2 ->
  height b <= p.1 ∨ width b <= p.2 ->
  _get b p = Raise IndexError.
Proof.
  intros [Hlen Hrows] H1 H2 Hout. unfold _get.
  destruct (decide (height b <= p.1)) as [Hh|Hh].
  { rewrite py_index_high; [done|lia]. }
  destruct (lookup_lt_is_Some_2 (board b) (Z.to_nat p.1)) as [row Hrow];
    [lia|].
  rewrite (py_index_nonneg _ _ row) by done. simpl.
  apply py_index_high.
  rewrite (proj1 (Forall_lookup _ _) Hrows _ _ Hrow). lia.
Qed.

Lemma set_out_of_shape (b : Board) (p : pos) (t : option Tile) :
  shaped b -> 0 <= p.1 -> 0 <= p.2 ->
  height b <= p.1 ∨ width b <= p.2 ->
  _set b p t = Raise IndexError.
Proof.
  intros [Hlen Hrows] H1 H2 Hout. unfold _set.
  destruct (decide (height b <= p.1)) as [Hh|Hh].
  { rewrite py_index_high; [done|lia]. }
  destruct (lookup_lt_is_Some_2 (board b) (Z.to_nat p.1)) as [row Hrow];
    [lia|].
  rewrite (py_index_nonneg _ _ row) by done. simpl.
  unfold py_setitem. rewrite (py_norm_high (length row) p.2); [done|].
  rewrite (proj1 (Forall_lookup _ _) Hrows _ _ Hrow). lia.
Qed.

Lemma Board_init_shaped (w h : Z) : shaped (Board_init w h).
Proof.
  split; simpl.
  - by rewrite length_replicate.
  - apply Forall_replicate. by rewrite length_replicate.
Qed.

(** * Start cells of the merge walk *)

Lemma find_starts_edge (b : Board) (d p : pos) :
  unit_dir d -> 0 < width b -> 0 < height b ->
  p ∈ _find_starts b d <->
  _is_valid b p = true ∧ _is_valid b (_move_position p d) = false.
Proof.
  intros Hd Hw Hh. rewrite is_valid_spec, is_valid_false.
  destruct p as [x y]. unfold _find_starts, range.
  destruct Hd as [-> | [-> | [-> | ->]]]; simpl;
    rewrite list_elem_of_fmap; setoid_rewrite elem_of_seqZ; split.
  all: try (intros (z & [= -> ->] & Hz); lia).
  - intros [H1 H2]. exists x. split; [f_equal; lia|lia].
  - intros [H1 H2]. exists x. split; [f_equal; lia|lia].
  - intros [H1 H2]. exists y. split; [f_equal; lia|lia].
  - intros [H1 H2]. exists y. split; [f_equal; lia|lia].
Qed.

(** * Boards that are not square: the scans raise *)

Lemma for_each_raises {A S} (Inv : S -> Prop) (body : A -> S -> result S)
    (l : list A) :
  (forall a s s', Inv s -> body a s = Ok s' -> Inv s') ->
  (forall a s, In a l -> Inv s -> ends (body a s)) ->
  (exists a, In a l ∧ forall s, Inv s -> body a s = Raise IndexError) ->
  forall s, Inv s -> for_each l body s = Raise IndexError.
Proof.
  intros Hkeep. induction l as [|a l IH]; intros Hends (q & Hq & Hbad) s Hs.
  { destruct Hq. }
  simpl. destruct (body a s) as [s'|e|] eqn:Hrun; simpl.
  - destruct Hq as [->|Hq]; [by rewrite Hbad in Hrun|].
    apply IH; eauto.
    intros x sx Hx. apply Hends. by right.
  - by destruct e.
  - by destruct (Hends a s (or_introl eq_refl) Hs).
Qed.

Lemma get_in_shape (b : Board) (p : pos) :
  shaped b -> 0 <= p.1 < height b -> 0 <= p.2 < width b ->
  exists c, _get b p = Ok c.
Proof.
  intros [Hlen Hrows] H1 H2. unfold _get.
  destruct (lookup_lt_is_Some_2 (board b) (Z.to_nat p.1)) as [row Hrow];
    [lia|].
  rewrite (py_index_nonneg _ _ row) by (done || lia). simpl.
  destruct (lookup_lt_is_Some_2 row (Z.to_nat p.2)) as [c Hc].
  { rewrite (proj1 (Forall_lookup _ _) Hrows _ _ Hrow). lia. }
  exists c. apply py_index_nonneg; [lia|done].
Qed.

Lemma get_ends (b : Board) (p : pos) : ends (_get b p).
Proof.
  unfold ends, _get, py_index.
  destruct (py_norm (length (board b)) p.1) as [k|]; [|done].
  destruct (board b !! k) as [row|]; [|done]. simpl.
  destruct (py_norm (length row) p.2) as [k'|]; [|done].
  by destruct (row !! k').
Qed.

Lemma set_keeps_shape (b b' : Board) (p : pos) (t : option Tile) :
  shaped b -> _set b p t = Ok b' ->
  shaped b' ∧ width b' = width b ∧ height b' = height b.
Proof.
  intros [Hlen Hrows]. unfold _set, py_index, py_setitem.
  destruct (py_norm (length (board b)) p.1) as [k|]; [|done].
  destruct (board b !! k) as [row|] eqn:Hrow; [|done]. simpl.
  destruct (py_norm (length row) p.2) as [k'|]; [|done]. simpl.
  intros [= <-]. split; [|done]. split; simpl.
  - by rewrite length_insert.
  - apply Forall_insert; [done|]. rewrite length_insert.
    by apply (proj1 (Forall_lookup _ _) Hrows _ _ Hrow).
Qed.

Lemma set_ends (b : Board) (p : pos) (t : option Tile) : ends (_set b p t).
Proof.
  unfold ends, _set, py_index, py_setitem.
  destruct (py_norm (length (board b)) p.1) as [k|]; [|done].
  destruct (board b !! k) as [row|]; [|done]. simpl.
  by destruct (py_norm (length row) p.2) as [k'|].
Qed.

Lemma reach_bound_any (b : Board) (d p : pos) :
  _is_valid b p = true ->
  0 <= reach (Z.max (width b) (height b)) d p
    <= Z.max (width b) (height b).
Proof.
  intros Hv%is_valid_spec. unfold reach. repeat case_match; lia.
Qed.

Lemma reach_step_any (b : Board) (d p : pos) :
  d ≠ (0, 0) -> _is_valid b p = true ->
  _is_valid b (_move_position p d) = true ->
  0 < reach (Z.max (width b) (height b)) d (_move_position p d)
    < reach (Z.max (width b) (height b)) d p.
Proof.
  intros Hd Hv%is_valid_spec Hn%is_valid_spec.
  destruct p as [x y], d as [dx dy]. unfold reach, _move_position in *.
  simpl in *.
  destruct (Z.ltb_spec 0 dx); [lia|].
  destruct (Z.ltb_spec dx 0); [lia|].
  destruct (Z.ltb_spec 0 dy); [lia|].
  destruct (Z.ltb_spec dy 0); [lia|].
  exfalso. apply Hd. f_equal; lia.
Qed.

(** On a board of any shape the [while] loop of [_compact] ends, and
    keeps the shape of the lists when it returns. *)
Lemma compact_while_ends (d : pos) (fuel : nat) :
  d ≠ (0, 0) ->
  forall (b : Board) (curr : pos) (ch : bool),
    shaped b -> _is_valid b curr = true ->
    reach (Z.max (width b) (height b)) d curr < Z.of_nat fuel ->
    ends (compact_while fuel d b curr (_move_position curr d) ch) ∧
    forall b' ch',
      compact_while fuel d b curr (_move_position curr d) ch = Ok (b', ch') ->
      shaped b' ∧ width b' = width b ∧ height b' = height b.
Proof.
  intros Hd. induction fuel as [|fuel IH]; intros b curr ch Hsh Hv Hfuel.
  { pose proof (reach_bound_any b d curr Hv). lia. }
  simpl. destruct (_is_valid b (_move_position curr d)) eqn:Hnext.
  2:{ split; [done|]. by intros b' ch' [= <- <-]. }
  pose proof (get_ends b (_move_position curr d)) as He1.
  destruct (_get b (_move_position curr d)) as [[nt|]|e|]; simpl;
    [by split; [|intros b' ch' [= <- <-]]| |by split|done].
  pose proof (get_ends b curr) as He2.
  destruct (_get b curr) as [t|e|]; simpl; [|by split|done].
  pose proof (set_ends b (_move_position curr d) t) as He3.
  destruct (_set b (_move_position curr d) t) as [b1|e|] eqn:Hs1; simpl;
    [|by split|done].
  destruct (set_keeps_shape b b1 _ _ Hsh Hs1) as (Hsh1 & Hw1 & Hh1).
  pose proof (set_ends b1 curr None) as He4.
  destruct (_set b1 curr None) as [b2|e|] eqn:Hs2; simpl;
    [|by split|done].
  destruct (set_keeps_shape b1 b2 _ _ Hsh1 Hs2) as (Hsh2 & Hw2 & Hh2).
  destruct (IH b2 (_move_position curr d) true Hsh2) as [Hends Hkeep].
  { unfold _is_valid. rewrite Hw2, Hh2, Hw1, Hh1. exact Hnext. }
  { rewrite Hw2, Hh2, Hw1, Hh1.
    pose proof (reach_step_any b d curr Hd Hv Hnext). lia. }
  split; [done|]. intros b' ch' Hrun.
  destruct (Hkeep b' ch' Hrun) as (? & ? & ?).
  split_and!; [done|congruence..].
Qed.

Lemma compact_cell_ends (d : pos) (fuel : nat) (b : Board) (ch : bool)
    (p : pos) :
  d ≠ (0, 0) -> shaped b -> _is_valid b p = true ->
  Z.max (width b) (height b) < Z.of_nat fuel ->
  ends (compact_cell fuel d p.1 p.2 (b, ch)) ∧
  forall b' ch',
    compact_cell fuel d p.1 p.2 (b, ch) = Ok (b', ch') ->
    shaped b' ∧ width b' = width b ∧ height b' = height b.
Proof.
  intros Hd Hsh Hv Hfuel. unfold compact_cell.
  replace (p.1, p.2) with p by by destruct p. simpl.
  pose proof (get_ends b p) as He.
  destruct (_get b p) as [[t|]|e|]; simpl; [| |by split|done].
  - apply compact_while_ends; auto.
    pose proof (reach_bound_any b d p Hv). lia.
  - split; [done|]. by intros b' ch' [= <- <-].
Qed.

(** A position [_is_valid] accepts and the lists do not hold. *)
Lemma bad_position (b : Board) :
  0 < width b -> 0 < height b -> width b ≠ height b ->
  exists p, _is_valid b p = true ∧ (height b <= p.1 ∨ width b <= p.2).
Proof.
  intros Hw Hh Hne. destruct (decide (width b < height b)).
  - exists (0, height b - 1). split; [apply is_valid_spec|right]; simpl; lia.
  - exists (width b - 1, 0). split; [apply is_valid_spec|left]; simpl; lia.
Qed.

Lemma spawn_not_square (rnd : draws) (b : Board) :
  shaped b -> 0 < width b -> 0 < height b -> width b ≠ height b ->
  spawn rnd b = Raise IndexError.
Proof.
  intros Hsh Hw Hh Hne. unfold spawn, spawn_options.
  rewrite for_each_nested. fold (scan (width b) (height b)).
  destruct (bad_position b Hw Hh Hne) as (q & Hq & Hout).
  rewrite (for_each_raises (fun _ => True)); auto.
  - intros [x y] s _ _. simpl. pose proof (get_ends b (x, y)) as He.
    by destruct (_get b (x, y)) as [[t|]|e|].
  - exists q. split; [by apply in_scan|]. intros s _.
    replace (q.1, q.2) with q by by destruct q.
    apply is_valid_spec in Hq.
    rewrite get_out_of_shape; [done|done|lia..|done].
Qed.

Lemma compact_not_square (fuel : nat) (b : Board) (d : pos) :
  d ≠ (0, 0) ->
  shaped b -> 0 < width b -> 0 < height b -> width b ≠ height b ->
  Z.max (width b) (height b) < Z.of_nat fuel ->
  _compact fuel b d = Raise IndexError.
Proof.
  intros Hd Hsh Hw Hh Hne Hfuel. unfold _compact.
  destruct (bad_position b Hw Hh Hne) as (q & Hq & Hout).
  set (Inv := fun s : Board * bool =>
    shaped s.1 ∧ width s.1 = width b ∧ height s.1 = height b).
  assert (forall s, Inv s ->
            compact_pass fuel d (width b) (height b) s = Raise IndexError)
    as Hpass.
  { intros s Hs. rewrite compact_pass_scan.
    assert (forall l s0, (forall p, In p l -> _is_valid b p = true) ->
              In q l -> Inv s0 ->
              for_each l (fun p => compact_cell fuel d p.1 p.2) s0
              = Raise IndexError) as Hgen.
    { induction l as [|a l IHl]; intros s0 Hl Hin Hs0; [destruct Hin|].
      simpl. destruct s0 as [bs chs]. destruct Hs0 as (Hsh' & Hw' & Hh').
      simpl in *.
      assert (_is_valid b a = true) as Ha by (apply Hl; by left).
      destruct (compact_cell_ends d fuel bs chs a Hd Hsh') as [He Hk].
      { unfold _is_valid. by rewrite Hw', Hh'. }
      { lia. }
      destruct (compact_cell fuel d a.1 a.2 (bs, chs)) as [[b' ch']|e|]
        eqn:Hrun; simpl; [|by destruct e|done].
      destruct Hin as [->|Hin].
      - exfalso. unfold compact_cell in Hrun. simpl in Hrun.
        replace (q.1, q.2) with q in Hrun by by destruct q.
        apply is_valid_spec in Hq.
        rewrite get_out_of_shape in Hrun; [done|done|lia..|].
        by rewrite Hw', Hh'.
      - apply IHl; [intros p Hp; apply Hl; by right|done|].
        destruct (Hk b' ch' eq_refl) as (? & ? & ?).
        split_and!; [done|simpl; congruence..]. }
    apply Hgen; [intros p; apply in_scan|by apply in_scan|done]. }
  destruct (range (Z.max (width b) (height b))) as [|i l] eqn:Hr.
  { assert (In 0 (range (Z.max (width b) (height b)))) as Hin
      by (apply in_range; lia).
    rewrite Hr in Hin. destruct Hin. }
  simpl. rewrite Hpass; [done|]. by split_and!.
Qed.

Lemma move_not_square (fuel : nat) (rnd : draws) (b : Board) (d : pos) :
  d ≠ (0, 0) ->
  shaped b -> 0 < width b -> 0 < height b -> width b ≠ height b ->
  Z.max (width b) (height b) < Z.of_nat fuel ->
  move fuel rnd b d = Raise IndexError.
Proof.
  intros Hd Hsh Hw Hh Hne Hfuel. unfold move.
  by rewrite compact_not_square.
Qed.

(** * Further properties: weights, the merge walk, the program *)

(** ** Weights *)

Lemma sum_Z_app (l1 l2 : list Z) : sum_Z (l1 ++ l2) = sum_Z l1 + sum_Z l2.
Proof. induction l1 as [|x l1 IH]; simpl; lia. Qed.

Lemma weight_put (w : option Tile -> Z) (b : Board) (p : pos)
    (t : option Tile) :
  shaped b -> square b -> _is_valid b p = true ->
  weight w (put b p t) = weight w b - w (cell b p) + w t.
Proof.
  intros Hsh Hsq Hv.
  destruct (valid_row b Hsh Hsq p Hv) as (row & Hrow & Hlen & Hy).
  destruct (lookup_lt_is_Some_2 row (Z.to_nat p.2) Hy) as [c Hc].
  unfold weight, put, cell. simpl. rewrite Hrow, Hc. simpl.
  rewrite insert_take_drop by (by eapply lookup_lt_Some).
  rewrite <- (take_drop_middle (board b) _ row Hrow) at 3.
  rewrite !fmap_app, !fmap_cons, !sum_Z_app. simpl.
  rewrite insert_take_drop by done.
  rewrite <- (take_drop_middle row _ c Hc) at 3.
  rewrite !fmap_app, !fmap_cons, !sum_Z_app. simpl. lia.
Qed.

Lemma cell_value_neutral : merge_neutral cell_value.
Proof. intros a c Heq. simpl. lia. Qed.

(** The invariant rule for a [for] loop whose invariant does not depend on
    the elements still to come. *)
Lemma for_each_keeps {A S} (Inv : S -> Prop) (body : A -> S -> result S)
    (l : list A) :
  (forall a s, In a l -> Inv s -> exists s', body a s = Ok s' ∧ Inv s') ->
  forall s, Inv s -> exists s', for_each l body s = Ok s' ∧ Inv s'.
Proof.
  induction l as [|a l IH]; intros Hstep s HI; simpl; [eauto|].
  destruct (Hstep a s) as (s' & -> & HI'); [by left|done|]. simpl.
  apply IH; [|done]. intros a' s0 Hin. apply Hstep. by right.
Qed.

Section weights.
Context (w : option Tile -> Z).

Lemma compact_while_weight (d : pos) (fuel : nat) :
  forall (b : Board) (curr : pos) (ch : bool) (t : Tile) b' ch',
    shaped b -> square b -> _is_valid b curr = true ->
    cell b curr = Some t ->
    compact_while fuel d b curr (_move_position curr d) ch = Ok (b', ch') ->
    weight w b' = weight w b.
Proof.
  induction fuel as [|fuel IH]; intros b curr ch t b' ch' Hsh Hsq Hv Hc;
    [done|].
  simpl. destruct (_is_valid b (_move_position curr d)) eqn:Hnext.
  2:{ by intros [= <- <-]. }
  rewrite (get_valid b Hsh Hsq _ Hnext). simpl.
  destruct (cell b (_move_position curr d)) as [t'|] eqn:Hcn.
  { by intros [= <- <-]. }
  assert (_move_position curr d ≠ curr) as Hne by congruence.
  rewrite (get_valid b Hsh Hsq _ Hv), Hc. simpl.
  rewrite (set_valid b Hsh Hsq _ _ Hnext). simpl.
  set (b1 := put b (_move_position curr d) (Some t)).
  assert (shaped b1) as Hsh1 by by apply put_shaped.
  assert (square b1) as Hsq1 by done.
  rewrite (set_valid b1 Hsh1 Hsq1 curr None Hv). simpl.
  set (b2 := put b1 curr None).
  assert (shaped b2) as Hsh2 by by apply put_shaped.
  assert (cell b1 curr = Some t) as Hc1.
  { unfold b1. by rewrite (cell_put_ne b Hsh Hsq). }
  assert (cell b2 (_move_position curr d) = Some t) as Hc2.
  { unfold b2. rewrite (cell_put_ne b1 Hsh1 Hsq1) by done.
    by apply cell_put_eq. }
  intros Hrun.
  rewrite (IH b2 _ true t b' ch' Hsh2 Hsq1 Hnext Hc2 Hrun).
  unfold b2. rewrite (weight_put w b1) by done.
  unfold b1 at 1. rewrite (weight_put w b) by done.
  rewrite Hc1, Hcn. lia.
Qed.

Lemma compact_weight (d : pos) (fuel : nat) (b : Board) :
  shaped b -> square b -> width b < Z.of_nat fuel ->
  forall b' ch, _compact fuel b d = Ok (b', ch) -> weight w b' = weight w b.
Proof.
  intros Hsh Hsq Hfuel b' ch. unfold _compact.
  set (Inv := fun s : Board * bool =>
    shaped s.1 ∧ width s.1 = width b ∧ height s.1 = height b ∧
    weight w s.1 = weight w b).
  assert (forall p s, _is_valid b p = true -> Inv s ->
            exists s', compact_cell fuel d p.1 p.2 s = Ok s' ∧ Inv s')
    as Hcell.
  { intros p [bs chs] Hp (Hsh' & Hw' & Hh' & Hwt). simpl in *.
    assert (square bs) as Hsq' by (unfold square in *; congruence).
    assert (_is_valid bs p = true) as Hp'
      by (unfold _is_valid; by rewrite Hw', Hh').
    destruct (compact_cell_any d fuel bs chs p Hsh' Hsq' Hp')
      as (b1 & moved & Hrun & Hsh1 & Hw1 & Hh1 & _); [lia|].
    exists (b1, chs || moved). split; [done|].
    unfold Inv. simpl. split_and!; [done|congruence..|].
    rewrite <- Hwt. revert Hrun. unfold compact_cell. simpl.
    replace (p.1, p.2) with p by by destruct p.
    rewrite (get_valid bs Hsh' Hsq' _ Hp'). simpl.
    destruct (cell bs p) as [t|] eqn:Hc.
    - intros Hrun. by apply (compact_while_weight d fuel bs p chs t b1 (chs || moved)).
    - by intros [= <- _]. }
  assert (forall s, Inv s ->
            exists s', compact_pass fuel d (width b) (height b) s = Ok s'
                       ∧ Inv s') as Hpass.
  { intros s Hs. rewrite compact_pass_scan.
    apply for_each_keeps; [|done].
    intros p s0 Hin Hs0. apply Hcell; [|done]. by apply in_scan. }
  intros Hrun.
  destruct (for_each_keeps Inv
              (fun _ : Z => compact_pass fuel d (width b) (height b))
              (range (Z.max (width b) (height b)))) with (s := (b, false))
    as (s' & Hrun' & Hs').
  - intros _ s _ Hs. by apply Hpass.
  - by split_and!.
  - rewrite Hrun in Hrun'. injection Hrun' as <-.
    by destruct Hs' as (_ & _ & _ & ?).
Qed.

Lemma merge_while_weight (d : pos) (fuel : nat) :
  unit_dir d -> merge_neutral w ->
  forall (b : Board) (j k : Z) (ch : bool) b' ch',
    shaped b -> square b ->
    0 <= j < width b -> 0 <= k < width b ->
    merge_while fuel (- d.1, - d.2) b (at_lk (width b) d j k)
      (at_lk (width b) d j (k + 1)) ch = Ok (b', ch') ->
    weight w b' = weight w b.
Proof.
  intros Hd Hneutral.
  induction fuel as [|fuel IH]; intros b j k ch b' ch' Hsh Hsq Hj Hk;
    [done|].
  simpl.
  assert (_is_valid b (at_lk (width b) d j k) = true) as Hv
    by by apply valid_at.
  destruct (_is_valid b (at_lk (width b) d j (k + 1))) eqn:Hnext.
  2:{ by intros [= <- <-]. }
  assert (0 <= k + 1 < width b) as Hk1.
  { apply valid_at in Hnext; [lia|done..]. }
  rewrite (get_valid b Hsh Hsq _ Hv), (get_valid b Hsh Hsq _ Hnext).
  simpl. rewrite move_back_at by done.
  assert (forall b0, shaped b0 -> square b0 -> width b0 = width b ->
            forall c,
            merge_while fuel (- d.1, - d.2) b0 (at_lk (width b) d j (k + 1))
              (at_lk (width b) d j (k + 1 + 1)) c = Ok (b', ch') ->
            weight w b' = weight w b0) as Hgo.
  { intros b0 Hsh0 Hsq0 Hw0 c Hrun. rewrite <- Hw0 in *.
    by apply (IH b0 j (k + 1) c b' ch'). }
  destruct (cell b (at_lk (width b) d j k)) as [ft|] eqn:Hft;
    [|by apply Hgo].
  destruct (cell b (at_lk (width b) d j (k + 1))) as [st|] eqn:Hst;
    [|by apply Hgo].
  unfold merge. destruct (Z.eqb_spec (value ft) (value st)) as [Heq|];
    [|by apply Hgo].
  rewrite (set_valid b Hsh Hsq _ _ Hv). simpl.
  set (b1 := put b (at_lk (width b) d j k) (Some (mkTile (value ft * 2)))).
  assert (shaped b1) as Hsh1 by by apply put_shaped.
  assert (square b1) as Hsq1 by done.
  rewrite (set_valid b1 Hsh1 Hsq1 _ None Hnext). simpl.
  set (b2 := put b1 (at_lk (width b) d j (k + 1)) None).
  assert (shaped b2) as Hsh2 by by apply put_shaped.
  intros Hrun. rewrite (Hgo b2 Hsh2 Hsq1 eq_refl true Hrun).
  unfold b2. rewrite (weight_put w b1) by done.
  unfold b1 at 1. rewrite (weight_put w b) by done.
  assert (cell b1 (at_lk (width b) d j (k + 1)) = Some st) as ->.
  { unfold b1. rewrite (cell_put_ne b Hsh Hsq); [done..|].
    intros [_ ?]%at_lk_inj; [lia|done]. }
  rewrite Hft. pose proof (Hneutral ft st Heq). lia.
Qed.

Lemma merge_pass_weight (d : pos) (fuel : nat) (b : Board) (ch : bool) :
  unit_dir d -> merge_neutral w ->
  shaped b -> square b -> width b < Z.of_nat fuel ->
  forall b' ch', merge_pass fuel b d ch = Ok (b', ch') ->
    weight w b' = weight w b.
Proof.
  intros Hd Hneutral Hsh Hsq Hfuel b' ch'. unfold merge_pass.
  rewrite find_starts_unit, for_each_fmap by done.
  set (Inv := fun s : Board * bool =>
    shaped s.1 ∧ width s.1 = width b ∧ height s.1 = height b ∧
    weight w s.1 = weight w b).
  intros Hrun.
  destruct (for_each_keeps Inv
              (fun j s => merge_while fuel (- d.1, - d.2) s.1
                            (at_lk (width b) d j 0)
                            (_move_position (at_lk (width b) d j 0)
                               (- d.1, - d.2)) s.2)
              (range (width b))) with (s := (b, ch))
    as (s' & Hrun' & Hs'); [| |rewrite Hrun in Hrun'].
  - intros a [bs chs] Ha%in_range (Hsh' & Hw' & Hh' & Hwt). simpl in *.
    assert (square bs) as Hsq' by (unfold square in *; congruence).
    destruct (merge_while_unit d Hd fuel bs a 0 chs Hsh' Hsq')
      as (b1 & ch1 & Hrun1 & Hsh1 & Hw1 & Hh1 & _); [lia..|].
    pose proof (merge_while_weight d fuel Hd Hneutral bs a 0 chs b1 ch1
                  Hsh' Hsq' ltac:(lia) ltac:(lia) Hrun1) as Hwt1.
    rewrite <- (move_back_at (width bs) d a 0 Hd) in Hrun1.
    rewrite Hw' in Hrun1.
    exists (b1, ch1). split; [exact Hrun1|].
    unfold Inv. simpl. split_and!; [done|congruence..].
  - by split_and!.
  - injection Hrun' as <-. by destruct Hs' as (_ & _ & _ & ?).
Qed.

Lemma move_steps_weight (d : pos) (fuel : nat) (b : Board) :
  unit_dir d -> merge_neutral w ->
  shaped b -> square b -> width b < Z.of_nat fuel ->
  forall b3 ch, move_steps fuel b d = Ok (b3, ch) ->
    weight w b3 = weight w b.
Proof.
  intros Hd Hneutral Hsh Hsq Hfuel b3 ch. unfold move_steps.
  destruct (compact_any d fuel b Hsh Hsq Hfuel)
    as (b1 & c1 & Hrun1 & Hsh1 & Hw1 & Hh1 & _).
  rewrite Hrun1. simpl.
  assert (square b1) as Hsq1 by (unfold square in *; congruence).
  destruct (merge_pass_unit d Hd fuel b1 c1 Hsh1 Hsq1 ltac:(lia))
    as (b2 & c2 & Hrun2 & Hsh2 & Hw2 & Hh2 & _).
  rewrite Hrun2. simpl.
  assert (square b2) as Hsq2 by (unfold square in *; congruence).
  destruct (_compact fuel b2 d) as [[b3' c3]| |] eqn:Hrun3; simpl; [|done..].
  intros [= <- <-].
  rewrite (compact_weight d fuel b2 Hsh2 Hsq2 ltac:(lia) _ _ Hrun3).
  rewrite (merge_pass_weight d fuel b1 c1 Hd Hneutral Hsh1 Hsq1
             ltac:(lia) _ _ Hrun2).
  by apply (compact_weight d fuel b Hsh Hsq Hfuel _ _ Hrun1).
Qed.

Lemma spawned_weight (b b' : Board) :
  shaped b -> square b -> spawned b b' ->
  exists v, (v = 2 ∨ v = 4) ∧
            weight w b' = weight w b - w None + w (Some (mkTile v)).
Proof.
  intros Hsh Hsq (p & v & Hv & Hc & Hval & ->).
  exists v. split; [done|]. rewrite weight_put by done. by rewrite Hc.
Qed.
End weights.

Lemma py_index_wrap {A} (l : list A) (i : Z) :
  py_index l i =
  if (- Z.of_nat (length l) <=? i) && (i <? Z.of_nat (length l))
  then match l !! Z.to_nat (wrap (Z.of_nat (length l)) i) with
       | Some a => Ok a
       | None => Raise IndexError
       end
  else Raise IndexError.
Proof.
  unfold py_index, py_norm, wrap.
  destruct (Z.ltb_spec i 0), (Z.leb_spec (- Z.of_nat (length l)) i),
    (Z.ltb_spec i (Z.of_nat (length l))); simpl;
    repeat match goal with
           | |- context [Z.leb ?a ?b] => destruct (Z.leb_spec a b)
           | |- context [Z.ltb ?a ?b] => destruct (Z.ltb_spec a b)
           end; simpl; try done; lia.
Qed.

Lemma spawn_at (rnd : draws) (b : Board) :
  shaped b -> square b -> empties b ≠ [] ->
  In (random_choice rnd (empties b)) (empties b) ∧
  spawn rnd b =
  Ok (put b (random_choice rnd (empties b))
        (Some (mkTile (if below_tenth rnd then 4 else 2))), PyNone).
Proof.
  intros Hsh Hsq Hne.
  pose proof (random_choice_in rnd (empties b) Hne) as Hin.
  split; [done|].
  apply in_empties in Hin as [Hv Hc].
  unfold spawn. rewrite spawn_options_spec by done. simpl.
  destruct (empties b) as [|p0 l] eqn:He; [done|].
  cbn [length Nat.eqb]. rewrite <- He in *. clear He.
  set (xy := random_choice rnd (empties b)) in *.
  rewrite (set_valid b Hsh Hsq _ _ Hv). simpl.
  destruct (below_tenth rnd); [|done].
  rewrite (set_valid (put b xy (Some Tile_default))) by
    (done || by apply put_shaped).
  simpl. by rewrite put_put.
Qed.

Lemma cell_Board_init (w h : Z) (p : pos) : cell (Board_init w h) p = None.
Proof.
  unfold cell, Board_init. simpl.
  destruct (replicate (Z.to_nat h) (replicate (Z.to_nat w) None) !! _)
    as [row|] eqn:Hrow; [|done].
  apply lookup_replicate in Hrow as [-> _].
  destruct (replicate (Z.to_nat w) None !! _) as [c|] eqn:Hc; [|done].
  by apply lookup_replicate in Hc as [-> _].
Qed.

(** The [while] loop of the merge walk with the direction [(0, 0)]: the
    next cell is the current one, so the loop condition never fails. *)
Lemma merge_while_still (fuel : nat) :
  forall (b : Board) (p : pos) (ch : bool),
    shaped b -> square b -> _is_valid b p = true ->
    merge_while fuel (0, 0) b p p ch = OutOfFuel.
Proof.
  induction fuel as [|fuel IH]; intros b p ch Hsh Hsq Hv; [done|].
  assert (_move_position p (0, 0) = p) as Hp.
  { unfold _move_position. destruct p as [x y]. simpl. f_equal; lia. }
  simpl. rewrite Hv, (get_valid b Hsh Hsq _ Hv). simpl. rewrite Hp.
  destruct (cell b p) as [t|]; [|by apply IH].
  unfold merge. rewrite Z.eqb_refl.
  rewrite (set_valid b Hsh Hsq _ _ Hv). simpl.
  rewrite (set_valid (put b p _)) by (done || by apply put_shaped).
  simpl. apply IH; [|done|done].
  by repeat apply put_shaped.
Qed.

Lemma for_each_still {A S} (l : list A) (body : A -> S -> result S) (s : S) :
  (forall a, In a l -> body a s = Ok s ∨ body a s = OutOfFuel) ->
  for_each l body s = Ok s ∨ for_each l body s = OutOfFuel.
Proof.
  induction l as [|a l IH]; intros Hbody; simpl; [by left|].
  destruct (Hbody a) as [-> | ->]; [by left| |by right].
  simpl. apply IH. intros a' Hin. apply Hbody. by right.
Qed.

(** With the direction [(0, 0)] the cell after a tile is the tile's own
    cell, which is not empty: [_compact] moves nothing. *)
Lemma compact_still (fuel : nat) (b : Board) :
  shaped b -> square b ->
  _compact fuel b (0, 0) = Ok (b, false) ∨ _compact fuel b (0, 0) = OutOfFuel.
Proof.
  intros Hsh Hsq. unfold _compact. apply for_each_still. intros _ _.
  rewrite compact_pass_scan. apply for_each_still.
  intros p Hp%in_scan. unfold compact_cell. simpl.
  replace (p.1, p.2) with p by by destruct p.
  rewrite (get_valid b Hsh Hsq _ Hp). simpl.
  destruct (cell b p) as [t|] eqn:Hc; [|by left].
  assert (_move_position p (0, 0) = p) as ->.
  { unfold _move_position. destruct p as [x y]. simpl. f_equal; lia. }
  destruct fuel as [|fuel]; [by right|]. left. simpl.
  by rewrite Hp, (get_valid b Hsh Hsq _ Hp), Hc.
Qed.

Lemma once_merged_Forall (P : Z -> Prop) (l l' : list Tile) :
  (forall v, P v -> P (v * 2)) ->
  once_merged l l' ->
  Forall (fun t => P (value t)) l -> Forall (fun t => P (value t)) l'.
Proof.
  intros Hdouble Hm. induction Hm as [|a l l' _ IH|a c l l' Heq _ IH];
    intros Hall; [done| |].
  - apply Forall_cons in Hall as [Ha Hl]. constructor; auto.
  - apply Forall_cons in Hall as [Ha Hl].
    apply Forall_cons in Hl as [_ Hl]. constructor; auto.
    simpl. by apply Hdouble.
Qed.

Lemma merge_pairs_length (ts : list Tile) :
  (length (merge_pairs ts) <= length ts)%nat.
Proof. apply once_merged_length. by apply (merge_pairs_once (length ts)). Qed.

(** A line that [merge_pairs] leaves as it is has no two equal
    neighbours. *)
Lemma merge_pairs_fixed (ts : list Tile) :
  merge_pairs ts = ts ->
  forall k a c, ts !! k = Some a -> ts !! S k = Some c -> value a ≠ value c.
Proof.
  induction ts as [|a0 rest IH]; intros Hfix k a c Ha Hc; [done|].
  destruct rest as [|c0 rest']; [done|].
  cbn [merge_pairs] in Hfix.
  destruct (Z.eqb_spec (value a0) (value c0)) as [Heq|Hne].
  - injection Hfix as _ Hfix.
    pose proof (merge_pairs_length rest') as Hlen.
    rewrite Hfix in Hlen. simpl in Hlen. lia.
  - injection Hfix as Hfix. destruct k as [|k].
    + simpl in Ha, Hc. congruence.
    + by apply (IH Hfix k a c).
Qed.

Lemma line_at (b : Board) (d : pos) (j i : Z) :
  0 <= i < width b -> line b d j !! Z.to_nat i = Some (lc b d j i).
Proof.
  intros Hi. unfold line, range. rewrite list_lookup_fmap.
  rewrite (lookup_seqZ_lt 0 (width b) (Z.to_nat i)) by lia.
  simpl. f_equal. f_equal. lia.
Qed.

Lemma pad_lookup_tile (n : Z) (ts : list Tile) (i : nat) (t : Tile) :
  pad n ts !! i = Some (Some t) -> ts !! i = Some t.
Proof.
  unfold pad. intros H.
  apply lookup_app_Some in H as [H|[_ H]].
  - rewrite list_lookup_fmap in H.
    destruct (ts !! i) as [t'|]; simpl in H; congruence.
  - by apply lookup_replicate in H as [? _].
Qed.


(** No tile can slide and no line has two equal neighbours: [idle]. *)
Lemma stuck_no_pair_idle (b : Board) (d : pos) :
  unit_dir d -> square b -> all_stuck b d ->
  (forall j i t1 t2, 0 <= j < width b -> 0 <= i -> i + 1 < width b ->
     lc b d j i = Some t1 -> lc b d j (i + 1) = Some t2 ->
     value t1 ≠ value t2) ->
  idle b d = true.
Proof.
  intros Hd Hsq Hst Hpair. unfold idle. apply forallb_forall.
  intros p Hp%in_scan. apply andb_true_iff. split; apply negb_true_iff.
  - unfold can_slide, is_empty.
    destruct (cell b p) as [t|] eqn:Hc; [|done].
    destruct (Hst p Hp) as [H|[H|H]]; [congruence|by rewrite H|].
    destruct (cell b (_move_position p d)); [|done]. apply andb_false_r.
  - unfold can_merge.
    destruct (cell b p) as [t1|] eqn:Hc1; [|done].
    destruct (cell b (_move_position p d)) as [t2|] eqn:Hc2; [|done].
    destruct (_is_valid b (_move_position p d)) eqn:Hv; [|done].
    simpl. apply Z.eqb_neq. intros Heq.
    pose proof (valid_line_depth b d p Hd Hsq Hp) as [Hj Hk].
    pose proof (at_line_depth (width b) d p Hd) as Hat.
    rewrite <- Hat, move_at in Hv, Hc2 by done.
    apply valid_at in Hv as [_ Hk']; [|done..].
    apply (Hpair (line_of d p) (depth (width b) d p - 1) t2 t1);
      [done|lia|lia|done| |done].
    replace (depth (width b) d p - 1 + 1) with (depth (width b) d p) by lia.
    unfold lc. by rewrite Hat.
Qed.

(** What [move] along a unit direction does, in one statement: the steps
    before the spawn return a board of the same shape with the same
    weights; when they report no change the board is the one given and
    was [idle], otherwise the board was not [idle] and the spawn finds an
    empty cell. *)
Lemma move_outcome (fuel : nat) (b : Board) (d : pos) :
  unit_dir d -> shaped b -> square b -> width b < Z.of_nat fuel ->
  exists b3 ch,
    move_steps fuel b d = Ok (b3, ch) ∧
    shaped b3 ∧ width b3 = width b ∧ height b3 = height b ∧
    (forall w, merge_neutral w -> weight w b3 = weight w b) ∧
    (forall j, 0 <= j < width b ->
       line b3 d j = pad (width b) (merge_pairs (tiles (line b d j)))) ∧
    (ch = false ->
     b3 = b ∧ idle b d = true ∧ forall rnd, move fuel rnd b d = Ok b) ∧
    (ch = true ->
     idle b d = false ∧ empties b3 ≠ [] ∧
     forall rnd,
       In (random_choice rnd (empties b3)) (empties b3) ∧
       move fuel rnd b d =
       Ok (put b3 (random_choice rnd (empties b3))
             (Some (mkTile (if below_tenth rnd then 4 else 2))))).
Proof.
  intros Hd Hsh Hsq Hfuel.
  destruct (move_steps_unit fuel b d Hd Hsh Hsq Hfuel)
    as (b3 & ch & Hrun & Hsh3 & Hw3 & Hh3 & _ & Hst3 & Hno & Hyes & Hlines).
  assert (square b3) as Hsq3 by (unfold square in *; congruence).
  exists b3, ch. split_and!; try done.
  - intros w Hn.
    by apply (move_steps_weight w d fuel b Hd Hn Hsh Hsq Hfuel b3 ch).
  - intros ->. pose proof (Hno eq_refl) as ->.
    split_and!; [done| |].
    + apply stuck_no_pair_idle; [done..|].
      intros j i t1 t2 Hj Hi Hi' H1 H2.
      pose proof (Hlines j Hj) as Hline.
      assert (merge_pairs (tiles (line b d j)) = tiles (line b d j)) as Hfix.
      { rewrite Hline at 2. by rewrite tiles_pad. }
      rewrite Hfix in Hline.
      apply (merge_pairs_fixed _ Hfix (Z.to_nat i)).
      * apply (pad_lookup_tile (width b)). rewrite <- Hline.
        rewrite line_at by lia. by rewrite H1.
      * apply (pad_lookup_tile (width b)). rewrite <- Hline.
        replace (S (Z.to_nat i)) with (Z.to_nat (i + 1)) by lia.
        rewrite line_at by lia. by rewrite H2.
    + intros rnd. rewrite move_split. by rewrite Hrun.
  - intros ->. destruct (Hyes eq_refl) as [Hne Hroom].
    assert (empties b3 ≠ []) as Hemp.
    { intros He. apply empties_nil in He; [|done..].
      rewrite Hw3, Hh3 in He. lia. }
    split_and!; [|done|].
    + destruct (idle b d) eqn:Hidle; [|done].
      rewrite (move_steps_idle fuel b d Hd Hsh Hsq Hfuel Hidle) in Hrun.
      done.
    + intros rnd. destruct (spawn_at rnd b3 Hsh3 Hsq3 Hemp) as [Hin Hsp].
      split; [done|]. rewrite move_split, Hrun, Hsp. done.
Qed.

Lemma power_of_two_2 : power_of_two 2.
Proof. exists 1. split; [lia|done]. Qed.

Lemma power_of_two_4 : power_of_two 4.
Proof. exists 2. split; [lia|done]. Qed.

Lemma power_of_two_double (v : Z) : power_of_two v -> power_of_two (v * 2).
Proof.
  intros (k & Hk & ->). exists (k + 1). split; [lia|].
  rewrite Z.pow_add_r by lia. lia.
Qed.

Lemma power_of_two_pos (v : Z) : power_of_two v -> 2 <= v.
Proof.
  intros (k & Hk & ->). replace k with (1 + (k - 1)) by lia.
  rewrite Z.pow_add_r by lia.
  pose proof (Z.pow_pos_nonneg 2 (k - 1) ltac:(lia) ltac:(lia)). lia.
Qed.

(** The steps of [move] before the spawn keep a property of the values
    that doubling keeps. *)
Lemma move_steps_all_tiles (P : Z -> Prop) (b b3 : Board) (d : pos) :
  unit_dir d -> square b -> width b3 = width b -> height b3 = height b ->
  (forall v, P v -> P (v * 2)) ->
  (forall j, 0 <= j < width b ->
     line b3 d j = pad (width b) (merge_pairs (tiles (line b d j)))) ->
  all_tiles P b -> all_tiles P b3.
Proof.
  intros Hd Hsq Hw Hh Hdouble Hlines Hall p t Hp Hc.
  assert (square b3) as Hsq3 by (unfold square in *; congruence).
  pose proof (valid_line_depth b3 d p Hd Hsq3 Hp) as [Hj Hk].
  pose proof (at_line_depth (width b3) d p Hd) as Hat.
  set (j := line_of d p) in *. set (k := depth (width b3) d p) in *.
  assert (line b3 d j !! Z.to_nat k = Some (Some t)) as Hl.
  { rewrite line_at by done. unfold lc. by rewrite Hat, Hc. }
  rewrite Hlines in Hl by lia.
  apply pad_lookup_tile in Hl.
  assert (Forall (fun t => P (value t)) (merge_pairs (tiles (line b d j))))
    as HF.
  { apply (once_merged_Forall P (tiles (line b d j))); [done| |].
    - by apply (merge_pairs_once (length (tiles (line b d j)))).
    - apply Forall_forall. intros t' Ht'.
      apply list_elem_of_omap in Ht' as (c & Hin & Hc').
      simpl in Hc'. subst c.
      apply list_elem_of_lookup in Hin as [i Hi].
      apply line_lookup in Hi as [Hi Hlt].
      apply (Hall (at_lk (width b) d j (Z.of_nat i))); [|done].
      apply valid_at; [done..|lia]. }
  apply (proj1 (Forall_forall _ _) HF).
  by eapply list_elem_of_lookup_2.
Qed.

Lemma put_all_tiles (P : Z -> Prop) (b : Board) (p : pos) (v : Z) :
  shaped b -> square b -> _is_valid b p = true -> P v ->
  all_tiles P b -> all_tiles P (put b p (Some (mkTile v))).
Proof.
  intros Hsh Hsq Hp Hv Hall q t Hq. rewrite cell_put by done.
  case_decide; [by intros [= <-]|by apply Hall].
Qed.

Lemma no_tiles_no_sum (b : Board) : count_tiles b = 0%nat -> sum_values b = 0.
Proof.
  unfold count_tiles, sum_values, weight.
  induction (board b) as [|row rows IH]; [done|].
  rewrite fmap_cons. cbn [sum_list_with]. intros Hcnt.
  change (sum_Z (?x :: ?l)) with (x + sum_Z l).
  rewrite IH by lia.
  assert (length (omap id row) = 0%nat) as Hrow by lia.
  clear -Hrow. induction row as [|[t|] row IH]; [done|done|].
  rewrite fmap_cons. change (sum_Z (?x :: ?l)) with (x + sum_Z l).
  cbn in Hrow. specialize (IH Hrow). simpl in *. lia.
Qed.

(** One [move] along a unit direction under the invariants of a game. *)
Lemma move_sound (P : Z -> Prop) (fuel : nat) (rnd : draws) (b : Board)
    (d : pos) :
  P 2 -> P 4 -> (forall v, P v -> P (v * 2)) ->
  unit_dir d -> shaped b -> square b -> width b < Z.of_nat fuel ->
  exists b', move fuel rnd b d = Ok b' ∧
    shaped b' ∧ width b' = width b ∧ height b' = height b ∧
    (all_tiles P b -> all_tiles P b') ∧
    sum_values b' =
      sum_values b +
      (if idle b d then 0 else if below_tenth rnd then 4 else 2) ∧
    (b' = b <-> idle b d = true) ∧
    ((2 <= count_tiles b)%nat -> 0 < sum_values b ->
     (2 <= count_tiles b')%nat).
Proof.
  intros P2 P4 Hdouble Hd Hsh Hsq Hfuel.
  destruct (move_outcome fuel b d Hd Hsh Hsq Hfuel)
    as (b3 & ch & Hrun & Hsh3 & Hw3 & Hh3 & Hwt & Hlines & Hno & Hyes).
  assert (square b3) as Hsq3 by (unfold square in *; congruence).
  destruct ch.
  - destruct (Hyes eq_refl) as (Hidle & Hemp & Hmove).
    destruct (Hmove rnd) as [Hin Hrun']. apply in_empties in Hin as [Hv Hc].
    set (p := random_choice rnd (empties b3)) in *.
    set (v := if below_tenth rnd then 4 else 2) in *.
    assert (sum_values (put b3 p (Some (mkTile v))) = sum_values b + v)
      as Hsum.
    { unfold sum_values. rewrite weight_put, Hc by done. simpl.
      rewrite (Hwt cell_value cell_value_neutral). lia. }
    assert (0 < v) as Hvpos by (unfold v; destruct (below_tenth rnd); lia).
    exists (put b3 p (Some (mkTile v))). rewrite Hidle.
    split; [done|]. split; [by apply put_shaped|]. do 2 (split; [done|]).
    split_and!.
    + intros Hall. apply put_all_tiles; [done..| |].
      * unfold v. by destruct (below_tenth rnd).
      * by apply (move_steps_all_tiles P b b3 d).
    + done.
    + split; [|done]. intros Heq. rewrite Heq in Hsum. lia.
    + intros _ Hpos.
      pose proof (count_put b3 Hsh3 Hsq3 p (Some (mkTile v)) Hv) as Hcnt.
      rewrite Hc in Hcnt. simpl in Hcnt.
      destruct (count_tiles b3) as [|n] eqn:Hn; [|lia].
      apply no_tiles_no_sum in Hn.
      unfold sum_values in Hn.
      rewrite (Hwt cell_value cell_value_neutral) in Hn.
      unfold sum_values in Hpos. lia.
  - destruct (Hno eq_refl) as (-> & Hidle & Hmove).
    exists b. rewrite Hidle. split; [done|]. do 3 (split; [done|]).
    split_and!; [done|lia|done|done].
Qed.

(** * Game over and the four moves *)






(** * The start of the program and the key presses *)

Lemma new_board_facts (rnd1 rnd2 : draws) :
  exists b, new_board rnd1 rnd2 = Ok b ∧
    shaped b ∧ width b = 4 ∧ height b = 4 ∧
    count_tiles b = 2%nat ∧
    all_tiles (fun v => v = 2 ∨ v = 4) b ∧
    4 <= sum_values b.
Proof.
  pose proof (Board_init_shaped 4 4) as Hsh0.
  assert (square (Board_init 4 4)) as Hsq0 by done.
  destruct (spawn_at rnd1 (Board_init 4 4) Hsh0 Hsq0) as [Hin1 Hrun1];
    [done|].
  apply in_empties in Hin1 as [Hv1 Hc1].
  set (p1 := random_choice rnd1 (empties (Board_init 4 4))) in *.
  set (v1 := if below_tenth rnd1 then 4 else 2) in *.
  set (b1 := put (Board_init 4 4) p1 (Some (mkTile v1))) in *.
  assert (shaped b1) as Hsh1 by by apply put_shaped.
  assert (square b1) as Hsq1 by done.
  assert (count_tiles b1 = 1%nat) as Hcnt1.
  { pose proof (count_put _ Hsh0 Hsq0 p1 (Some (mkTile v1)) Hv1) as H.
    rewrite Hc1 in H. simpl in H. fold b1 in H.
    change (count_tiles (Board_init 4 4)) with 0%nat in H. lia. }
  assert (empties b1 ≠ []) as Hemp1.
  { intros He. apply empties_nil in He; [|done..].
    rewrite Hcnt1 in He. simpl in He. lia. }
  destruct (spawn_at rnd2 b1 Hsh1 Hsq1 Hemp1) as [Hin2 Hrun2].
  apply in_empties in Hin2 as [Hv2 Hc2].
  set (p2 := random_choice rnd2 (empties b1)) in *.
  set (v2 := if below_tenth rnd2 then 4 else 2) in *.
  exists (put b1 p2 (Some (mkTile v2))).
  assert (v1 = 2 ∨ v1 = 4) as Hv1' by (unfold v1; destruct (below_tenth rnd1); auto).
  assert (v2 = 2 ∨ v2 = 4) as Hv2' by (unfold v2; destruct (below_tenth rnd2); auto).
  split_and!.
  - unfold new_board. rewrite Hrun1. simpl. by rewrite Hrun2.
  - by apply put_shaped.
  - done.
  - done.
  - pose proof (count_put _ Hsh1 Hsq1 p2 (Some (mkTile v2)) Hv2) as H.
    rewrite Hc2 in H. simpl in H. lia.
  - apply put_all_tiles; [done..|]. apply put_all_tiles; [done..|].
    intros q t _. by rewrite cell_Board_init.
  - unfold sum_values. rewrite weight_put, Hc2 by done.
    unfold b1 at 1. rewrite weight_put, Hc1 by done. simpl.
    change (weight cell_value (Board_init 4 4)) with 0. lia.
Qed.


(** * check_game_over on a board that is not square *)

Lemma for_return_inv {A R} (l : list A) (body : A -> result (option R))
    (r : option R) :
  for_return l body = Ok r ->
  match r with
  | Some v => exists a, In a l ∧ body a = Ok (Some v)
  | None => forall a, In a l -> body a = Ok None
  end.
Proof.
  revert r. induction l as [|a l IH]; intros r; simpl.
  - intros [= <-]. by intros a [].
  - destruct (body a) as [[v|]| |] eqn:Hb; simpl; try done.
    + intros [= <-]. exists a. auto.
    + intros Hrun. specialize (IH r Hrun). destruct r as [v|].
      * destruct IH as (a' & Hin & Ha'). exists a'. auto.
      * intros a' [<- | Hin]; auto.
Qed.

Lemma for_return_ends {A R} (l : list A) (body : A -> result (option R)) :
  (forall a, In a l -> body a ≠ OutOfFuel) -> for_return l body ≠ OutOfFuel.
Proof.
  induction l as [|a l IH]; intros Hbody; simpl; [done|].
  pose proof (Hbody a (or_introl eq_refl)) as Ha.
  destruct (body a) as [[v|]| |]; simpl; try done.
  apply IH. intros a' Hin. apply Hbody. by right.
Qed.

Lemma get_ends_always (b : Board) (p : pos) : _get b p ≠ OutOfFuel.
Proof.
  unfold _get, py_index.
  destruct (py_norm (length (board b)) p.1) as [k|]; [|done].
  destruct (board b !! k) as [row|]; [|done]. simpl.
  destruct (py_norm (length row) p.2) as [k'|]; [|done].
  by destruct (row !! k').
Qed.

(** * Slides along any direction *)









Section any_direction.
Context (d : pos) (Hd : d ≠ (0, 0)).











End any_direction.




(** * The claims *)

Lemma board_of_shaped (n : Z) (rows : list (list Z)) :
  length rows = Z.to_nat n ->
  Forall (fun r => length r = Z.to_nat n) rows ->
  shaped (board_of n rows).
Proof.
  intros Hlen Hrows. split; simpl.
  - unfold cells. by rewrite length_map.
  - unfold cells. apply Forall_forall. intros row Hrow.
    apply list_elem_of_In, in_map_iff in Hrow as (r & <- & Hr).
    rewrite length_map. apply list_elem_of_In in Hr.
    by apply (proj1 (Forall_forall _ _) Hrows).
Qed.

(** A double merge is not [once_merged]: four 2s do not give one 8. *)
Lemma once_merged_not_twice :
  ¬ once_merged [mkTile 2; mkTile 2; mkTile 2; mkTile 2] [mkTile 8].
Proof.
  intros H. inversion H.
Qed.

(** C1: in one [move] along a unit direction no tile merges twice.  Before
    the spawn, every line holds, packed against the edge the tiles move
    to, the tiles [merge_pairs] makes of the tiles it held: each of them is
    a tile of the line or the merge of two equal neighbours, and every
    tile of the line goes into exactly one of them.  [move] returns that
    board, or that board with the spawned tile. *)
Theorem move_merges_each_tile_once (fuel : nat) (rnd : draws) (b : Board)
    (d : pos) :
  unit_dir d -> shaped b -> square b -> width b < Z.of_nat fuel ->
  exists b3 b',
    move fuel rnd b d = Ok b' ∧ (b' = b3 ∨ spawned b3 b') ∧
    forall j, 0 <= j < width b ->
      line b3 d j = pad (width b) (merge_pairs (tiles (line b d j))) ∧
      once_merged (tiles (line b d j)) (tiles (line b3 d j)).
Proof.
  intros Hd Hsh Hsq Hfuel.
  destruct (move_steps_unit fuel b d Hd Hsh Hsq Hfuel)
    as (b3 & ch & Hsteps & Hsh3 & Hw3 & Hh3 & _ & _ & _ & Hch & Hlines).
  assert (square b3) as Hsq3 by (unfold square in *; congruence).
  destruct (move_finish fuel rnd b b3 d ch Hsh3 Hsq3 Hsteps)
    as (b' & Hmove & Hend).
  { rewrite Hw3, Hh3. apply Hch. }
  exists b3, b'. split; [done|]. split.
  { destruct Hend as [[_ ->]|[_ ?]]; [by left|by right]. }
  intros j Hj. split; [by apply Hlines|].
  rewrite (Hlines j Hj), tiles_pad.
  by apply (merge_pairs_once (length (tiles (line b d j)))).
Qed.

(** The row [2,2,2,2] moved left becomes [4,4,None,None]. *)
Lemma move_merges_each_tile_once_witness :
  exists b3 b',
    move 5 (mkDraws 0 false) row_of_twos (-1, 0) = Ok b' ∧
    (b' = b3 ∨ spawned b3 b') ∧
    line b3 (-1, 0) 0 = [Some (mkTile 4); Some (mkTile 4); None; None].
Proof.
  destruct (move_merges_each_tile_once 5 (mkDraws 0 false) row_of_twos
              (-1, 0)) as (b3 & b' & Hmove & Hend & Hlines).
  - right; right; left; reflexivity.
  - apply board_of_shaped; [reflexivity|repeat constructor].
  - reflexivity.
  - simpl; lia.
  - exists b3, b'. split; [exact Hmove|]. split; [exact Hend|].
    destruct (Hlines 0) as [Hline _]; [simpl; lia|].
    rewrite Hline. reflexivity.
Defined.

(** C2: [check_game_over] never reads [self]: it scans the board bound
    to the module-level name [board].  Called on an empty board while
    that name is bound to a deadlocked one, it returns true. *)
Theorem check_game_over_reads_global :
  (forall g self1 self2 : Board,
     check_game_over g self1 = check_game_over g self2) ∧
  check_game_over deadlock (Board_init 2 2) = Ok true ∧
  cell (Board_init 2 2) (0, 0) = None.
Proof. split_and!; reflexivity. Qed.

(** C3: when no tile can slide along [d] and no two neighbours along [d]
    are equal, [move] returns the board it was given, whatever the draws
    (nothing is spawned), and so does a second [move]. *)
Theorem idle_move_changes_nothing (fuel : nat) (rnd rnd' : draws)
    (b : Board) (d : pos) :
  unit_dir d -> shaped b -> square b -> width b < Z.of_nat fuel ->
  idle b d = true ->
  move fuel rnd b d = Ok b ∧
  (b1 ← move fuel rnd b d; move fuel rnd' b1 d) = Ok b.
Proof.
  intros Hd Hsh Hsq Hfuel Hidle.
  assert (forall r, move fuel r b d = Ok b) as Hmove.
  { intros r. rewrite move_split.
    by rewrite (move_steps_idle fuel b d Hd Hsh Hsq Hfuel Hidle). }
  split; [apply Hmove|]. rewrite Hmove. simpl. apply Hmove.
Qed.

Lemma idle_move_changes_nothing_witness :
  move 5 (mkDraws 3 true) packed_board (0, -1) = Ok packed_board ∧
  (b1 ← move 5 (mkDraws 3 true) packed_board (0, -1);
   move 5 (mkDraws 7 false) b1 (0, -1)) = Ok packed_board.
Proof.
  apply (idle_move_changes_nothing 5 (mkDraws 3 true) (mkDraws 7 false)
           packed_board (0, -1)).
  - left; reflexivity.
  - apply board_of_shaped; [reflexivity|repeat constructor].
  - reflexivity.
  - simpl; lia.
  - reflexivity.
Defined.

(** C4: on a board with an empty cell [spawn] places one tile of value 2
    or 4 on an empty cell and then falls off its end: the call returns
    [None], not [True]. *)
Theorem spawn_returns_none_after_placing (rnd : draws) :
  exists b', spawn rnd (Board_init 4 4) = Ok (b', PyNone) ∧
             spawned (Board_init 4 4) b'.
Proof.
  apply spawn_spec; [apply Board_init_shaped|reflexivity|discriminate].
Qed.

(** C5: a [move] along a unit direction never raises the number of tiles
    before the spawn.  It returns the board it was given when nothing
    changed, and otherwise the changed board with exactly one spawned
    tile.  So the count grows by at most one, and never passes
    width * height. *)
Theorem move_tile_count (fuel : nat) (rnd : draws) (b : Board) (d : pos) :
  unit_dir d -> shaped b -> square b -> width b < Z.of_nat fuel ->
  exists b3 b',
    move fuel rnd b d = Ok b' ∧
    (count_tiles b3 <= count_tiles b)%nat ∧
    (b3 = b ∧ b' = b ∨
     b3 ≠ b ∧ spawned b3 b' ∧ count_tiles b' = S (count_tiles b3)) ∧
    (count_tiles b' <= count_tiles b + 1)%nat ∧
    (count_tiles b' <= Z.to_nat (width b) * Z.to_nat (height b))%nat.
Proof.
  intros Hd Hsh Hsq Hfuel.
  destruct (move_steps_unit fuel b d Hd Hsh Hsq Hfuel)
    as (b3 & ch & Hsteps & Hsh3 & Hw3 & Hh3 & Hcnt & _ & Hsame & Hdiff & _).
  assert (square b3) as Hsq3 by (unfold square in *; congruence).
  destruct (move_finish fuel rnd b b3 d ch Hsh3 Hsq3 Hsteps)
    as (b' & Hmove & Hend).
  { rewrite Hw3, Hh3. apply Hdiff. }
  exists b3, b'. split; [done|]. split; [done|].
  destruct Hend as [[-> ->]|[-> Hsp]].
  - rewrite (Hsame eq_refl) in *. split_and!.
    + by left.
    + lia.
    + by apply count_le_area.
  - destruct (spawned_facts b3 b' Hsh3 Hsq3 Hsp)
      as (Hsh' & Hw' & Hh' & Hcnt').
    split_and!.
    + right. split_and!; [by apply Hdiff|done|done].
    + lia.
    + rewrite <- Hw3, <- Hh3, <- Hw', <- Hh'. by apply count_le_area.
Qed.

Lemma move_tile_count_witness :
  exists b3 b',
    move 5 (mkDraws 0 false) row_of_twos (-1, 0) = Ok b' ∧
    (count_tiles b3 <= count_tiles row_of_twos)%nat ∧
    (b3 = row_of_twos ∧ b' = row_of_twos ∨
     b3 ≠ row_of_twos ∧ spawned b3 b' ∧
     count_tiles b' = S (count_tiles b3)) ∧
    (count_tiles b' <= count_tiles row_of_twos + 1)%nat ∧
    (count_tiles b' <= Z.to_nat 4 * Z.to_nat 4)%nat.
Proof.
  apply (move_tile_count 5 (mkDraws 0 false) row_of_twos (-1, 0)).
  - right; right; left; reflexivity.
  - apply board_of_shaped; [reflexivity|repeat constructor].
  - reflexivity.
  - simpl; lia.
Defined.

(** C6: along a unit direction [_compact] returns, and on the board it
    returns no tile has an empty cell of the board one step along [d];
    the tiles of every line are those it held, in the same order.  It
    returns true exactly when some tile could slide, which is exactly
    when the returned board differs from the one given. *)
Theorem compact_slides_every_tile (fuel : nat) (b : Board) (d : pos) :
  unit_dir d -> shaped b -> square b -> width b < Z.of_nat fuel ->
  exists b' ch,
    _compact fuel b d = Ok (b', ch) ∧
    all_stuck b' d ∧
    (ch = true <-> ¬ all_stuck b d) ∧
    (ch = true <-> b' ≠ b) ∧
    count_tiles b' = count_tiles b ∧
    forall j, 0 <= j < width b -> tiles (line b' d j) = tiles (line b d j).
Proof.
  intros Hd Hsh Hsq Hfuel.
  destruct (compact_any d fuel b Hsh Hsq Hfuel)
    as (b' & ch & Hrun & Hsh' & Hw & Hh & Hcnt & Hno & Hyes).
  destruct (compact_unit d Hd fuel b Hsh Hsq Hfuel)
    as (b'' & ch' & Hrun' & Hset & Htl).
  rewrite Hrun in Hrun'. injection Hrun' as <- <-.
  assert (all_stuck b' d) as Hst.
  { apply settled_all_stuck; [done| |by rewrite Hw].
    unfold square in *. congruence. }
  exists b', ch. split_and!; auto.
  - split; [done|]. intros Hn. destruct ch; [done|].
    by destruct (Hno eq_refl) as [_ ?].
  - split.
    + intros Hch ->. by apply Hyes.
    + intros Hne. destruct ch; [done|]. by destruct (Hno eq_refl) as [? _].
Qed.

Lemma compact_slides_every_tile_witness :
  exists b' ch,
    _compact 5 packed_board (1, 0) = Ok (b', ch) ∧
    all_stuck b' (1, 0) ∧
    (ch = true <-> ¬ all_stuck packed_board (1, 0)) ∧
    (ch = true <-> b' ≠ packed_board) ∧
    count_tiles b' = count_tiles packed_board ∧
    forall j, 0 <= j < width packed_board ->
      tiles (line b' (1, 0) j) = tiles (line packed_board (1, 0) j).
Proof.
  apply (compact_slides_every_tile 5 packed_board (1, 0)).
  - right; right; right; reflexivity.
  - apply board_of_shaped; [reflexivity|repeat constructor].
  - reflexivity.
  - simpl; lia.
Defined.

(** C7, as the specification states it, fails: for the direction left
    the start cells are the column [x = 0], none of them in the rightmost
    column. *)
Lemma find_starts_left_counterexample :
  _find_starts (Board_init 4 4) (-1, 0) = [(0, 0); (0, 1); (0, 2); (0, 3)] ∧
  _find_starts (Board_init 4 4) (-1, 0) ≠ (fun y => (3, y)) <$> range 4.
Proof. split; [reflexivity|discriminate]. Qed.

(** C7, amended: the start cells are the cells on the edge the tiles
    move to (the cells of the board whose neighbour one step along the
    direction is off the board); for the direction left that is the
    column [x = 0].  On a square board the merge pass then walks every
    line from its start cell, stepping along the inverse direction, and
    compares each cell with the next one: line [j], read from its start
    cell [at_lk _ d j 0], becomes what the walk [walk_line] makes of it,
    where two equal tiles met in a row become one tile of twice the value
    in the first cell and an empty second cell. *)
Theorem find_starts_edge_of_move (b : Board) (d : pos) :
  unit_dir d -> 0 < width b -> 0 < height b ->
  (forall p, p ∈ _find_starts b d <->
     _is_valid b p = true ∧ _is_valid b (_move_position p d) = false) ∧
  _find_starts b (-1, 0) = (fun y => (0, y)) <$> range (height b) ∧
  (shaped b -> square b ->
   (forall j, 0 <= j < width b ->
      at_lk (width b) d j 0 ∈ _find_starts b d ∧
      forall k, _move_position (at_lk (width b) d j k) (- d.1, - d.2)
                = at_lk (width b) d j (k + 1)) ∧
   forall fuel ch, width b < Z.of_nat fuel ->
     exists b' ch',
       merge_pass fuel b d ch = Ok (b', ch') ∧
       forall j, 0 <= j < width b ->
         line b' d j = walk_line (line b d j)).
Proof.
  intros Hd Hw Hh. split_and!.
  - intros p. by apply find_starts_edge.
  - unfold _find_starts. simpl. apply list_fmap_ext. intros i y _.
    f_equal. lia.
  - intros Hsh Hsq. split.
    + intros j Hj. split.
      * rewrite find_starts_unit by done. apply list_elem_of_fmap.
        exists j. split; [done|]. by apply list_elem_of_In, in_range.
      * intros k. by apply move_back_at.
    + intros fuel ch Hfuel.
      destruct (merge_pass_unit d Hd fuel b ch Hsh Hsq Hfuel)
        as (b' & ch' & Hrun & _ & _ & _ & _ & _ & _ & _ & Hlines).
      by exists b', ch'.
Qed.

Lemma find_starts_edge_of_move_witness :
  (forall p, p ∈ _find_starts row_of_twos (1, 0) <->
     _is_valid row_of_twos p = true ∧
     _is_valid row_of_twos (_move_position p (1, 0)) = false) ∧
  _find_starts row_of_twos (-1, 0)
    = (fun y => (0, y)) <$> range (height row_of_twos) ∧
  exists b' ch',
    merge_pass 5 row_of_twos (1, 0) false = Ok (b', ch') ∧
    (forall j, 0 <= j < width row_of_twos ->
       line b' (1, 0) j = walk_line (line row_of_twos (1, 0) j)) ∧
    line row_of_twos (1, 0) 0
      = [Some (mkTile 2); Some (mkTile 2); Some (mkTile 2); Some (mkTile 2)] ∧
    line b' (1, 0) 0 = [Some (mkTile 4); None; Some (mkTile 4); None].
Proof.
  destruct (find_starts_edge_of_move row_of_twos (1, 0))
    as (Hstarts & Hleft & Hwalk).
  - right; right; right; reflexivity.
  - simpl; lia.
  - simpl; lia.
  - do 2 (split; [assumption|]).
    destruct Hwalk as [_ Hwalk].
    + apply board_of_shaped; [reflexivity|repeat constructor].
    + reflexivity.
    + destruct (Hwalk 5%nat false) as (b' & ch' & Hrun & Hlines);
        [simpl; lia|].
      exists b', ch'. do 2 (split; [assumption|]).
      split; [reflexivity|].
      rewrite Hlines by (simpl; lia). reflexivity.
Defined.

(** C8, as the specification states it, fails: a board whose only tile
    is 4096 holds a value of at least 2048 and [check_win] is false. *)
Lemma check_win_4096_counterexample :
  check_win past_2048 = Ok false ∧
  exists t, cell past_2048 (0, 0) = Some t ∧ 2048 <= value t.
Proof.
  split; [reflexivity|]. exists (mkTile 4096). split; [reflexivity|].
  simpl. lia.
Qed.

(** C8, amended: [check_win] returns true exactly when some cell holds a
    tile of value 2048; in particular it is false on a board whose values
    are all at most 1024. *)
Theorem check_win_exactly_2048 (b : Board) :
  exists r,
    check_win b = Ok r ∧
    (r = true <->
     exists row t, In row (board b) ∧ In (Some t) row ∧ value t = 2048) ∧
    ((forall row t, In row (board b) -> In (Some t) row -> value t <= 1024) ->
     r = false).
Proof.
  pose proof (check_win_true b) as Htrue.
  rewrite check_win_scan in *.
  exists (existsb (existsb is_2048) (board b)). split; [done|].
  assert (existsb (existsb is_2048) (board b) = true <->
          exists row t, In row (board b) ∧ In (Some t) row ∧ value t = 2048)
    as Hiff.
  { rewrite <- Htrue. split; [by intros ->|by intros [= ->]]. }
  split; [done|]. intros Hsmall.
  destruct (existsb (existsb is_2048) (board b)); [|done].
  destruct (proj1 Hiff eq_refl) as (row & t & Hrow & Ht & Hv).
  specialize (Hsmall row t Hrow Ht). lia.
Qed.




(** C10: [__init__] builds [height] inner lists of [width] cells, every
    subscript is [board[x][y]], and [_is_valid] accepts [0 <= x < width],
    [0 <= y < height].  On a board of that shape with positive [width] and
    [height]: when [width = height], [_get], [_set], [spawn] and [move]
    return at every accepted position; when they differ, some accepted
    position makes [_get] and [_set] raise [IndexError], and so do every
    [spawn] and every [move] along a unit direction. *)
Theorem valid_positions_in_bounds_iff_square (b : Board) :
  shaped b -> 0 < width b -> 0 < height b ->
  (width b = height b ->
   (forall p, _is_valid b p = true -> exists c, _get b p = Ok c) ∧
   (forall p t, _is_valid b p = true -> exists b', _set b p t = Ok b') ∧
   (forall rnd, exists r, spawn rnd b = Ok r) ∧
   (forall fuel rnd d, unit_dir d -> width b < Z.of_nat fuel ->
      exists b', move fuel rnd b d = Ok b')) ∧
  (width b ≠ height b ->
   (exists p, _is_valid b p = true ∧ _get b p = Raise IndexError ∧
              forall t, _set b p t = Raise IndexError) ∧
   (forall rnd, spawn rnd b = Raise IndexError) ∧
   (forall fuel rnd d, unit_dir d ->
      Z.max (width b) (height b) < Z.of_nat fuel ->
      move fuel rnd b d = Raise IndexError)).
Proof.
  intros Hsh Hw Hh. split.
  - intros Hsq. split_and!.
    + intros p Hv. exists (cell b p). by apply get_valid.
    + intros p t Hv. exists (put b p t). by apply set_valid.
    + intros rnd. destruct (spawn_spec rnd b Hsh Hsq) as [Hfull Hroom].
      destruct (empties b) as [|q l] eqn:He.
      * rewrite Hfull by done. eauto.
      * destruct Hroom as (b' & -> & _); [done|]. eauto.
    + intros fuel rnd d Hd Hfuel.
      destruct (move_steps_unit fuel b d Hd Hsh Hsq Hfuel)
        as (b3 & ch & Hsteps & Hsh3 & Hw3 & Hh3 & _ & _ & _ & Hch & _).
      assert (square b3) as Hsq3 by (unfold square in *; congruence).
      destruct (move_finish fuel rnd b b3 d ch Hsh3 Hsq3 Hsteps)
        as (b' & Hmove & _).
      { rewrite Hw3, Hh3. apply Hch. }
      eauto.
  - intros Hne. split_and!.
    + destruct (bad_position b Hw Hh Hne) as (p & Hv & Hout).
      apply is_valid_spec in Hv as Hp.
      exists p. split_and!; [done| |intros t].
      * apply get_out_of_shape; [done|lia..|done].
      * apply set_out_of_shape; [done|lia..|done].
    + intros rnd. by apply spawn_not_square.
    + intros fuel rnd d Hd Hfuel. apply move_not_square; auto.
      destruct Hd as [-> | [-> | [-> | ->]]]; discriminate.
Qed.

Lemma valid_positions_in_bounds_iff_square_witness :
  (exists p,
     _is_valid (Board_init 2 3) p = true ∧
     _get (Board_init 2 3) p = Raise IndexError ∧
     forall t, _set (Board_init 2 3) p t = Raise IndexError) ∧
  (forall rnd, spawn rnd (Board_init 2 3) = Raise IndexError) ∧
  (forall fuel rnd d, unit_dir d ->
     Z.max (width (Board_init 2 3)) (height (Board_init 2 3))
       < Z.of_nat fuel ->
     move fuel rnd (Board_init 2 3) d = Raise IndexError).
Proof.
  apply (valid_positions_in_bounds_iff_square (Board_init 2 3)).
  - apply Board_init_shaped.
  - simpl; lia.
  - simpl; lia.
  - simpl; lia.
Defined.

(** * Further theorems *)

(** X1: on a square board a write through [_set] at a valid position
    returns, keeps the shape, and is read back by [_get] at that
    position; every other valid position reads as before. *)
Theorem set_then_get (b : Board) (p : pos) (t : option Tile) :
  shaped b -> square b -> _is_valid b p = true ->
  exists b', _set b p t = Ok b' ∧
    shaped b' ∧ width b' = width b ∧ height b' = height b ∧
    _get b' p = Ok t ∧
    forall q, _is_valid b q = true -> q ≠ p -> _get b' q = _get b q.
Proof.
  intros Hsh Hsq Hv. exists (put b p t).
  assert (shaped (put b p t)) as Hsh' by by apply put_shaped.
  split; [by apply set_valid|]. do 3 (split; [done|]). split.
  - rewrite (get_valid (put b p t)) by done. f_equal. by apply cell_put_eq.
  - intros q Hq Hne.
    rewrite (get_valid (put b p t)), (get_valid b) by done.
    f_equal. by apply cell_put_ne.
Qed.

Lemma set_then_get_witness :
  exists b', _set corner_tile (1, 2) (Some (mkTile 4)) = Ok b' ∧
    shaped b' ∧ width b' = width corner_tile ∧
    height b' = height corner_tile ∧
    _get b' (1, 2) = Ok (Some (mkTile 4)) ∧
    forall q, _is_valid corner_tile q = true -> q ≠ (1, 2) ->
      _get b' q = _get corner_tile q.
Proof.
  apply (set_then_get corner_tile (1, 2) (Some (mkTile 4))).
  - apply board_of_shaped; [reflexivity|repeat constructor].
  - reflexivity.
  - reflexivity.
Defined.

(** X2: [_get] has no bounds check of its own.  It returns for the
    subscripts Python accepts, [-height <= position[0] < height] and
    [-width <= position[1] < width], a negative one counting from the end
    of its list, and raises [IndexError] for every other position. *)
Theorem get_counts_negative_from_the_end (b : Board) (p : pos) :
  shaped b -> 0 <= width b -> 0 <= height b ->
  _get b p =
  if (- height b <=? p.1) && (p.1 <? height b) &&
     ((- width b <=? p.2) && (p.2 <? width b))
  then Ok (cell b (wrap (height b) p.1, wrap (width b) p.2))
  else Raise IndexError.
Proof.
  intros [Hlen Hrows] Hw Hh. unfold _get. rewrite py_index_wrap, Hlen.
  rewrite Z2Nat.id by done.
  destruct ((- height b <=? p.1) && (p.1 <? height b)) eqn:Hx; [|done].
  simpl. unfold cell. simpl.
  destruct (board b !! Z.to_nat (wrap (height b) p.1)) as [row|] eqn:Hrow.
  - assert (length row = Z.to_nat (width b)) as Hlr.
    { apply (proj1 (Forall_forall _ _) Hrows row).
      by eapply list_elem_of_lookup_2. }
    simpl. rewrite py_index_wrap, Hlr, Z2Nat.id by done.
    destruct ((- width b <=? p.2) && (p.2 <? width b)) eqn:Hy; [|done].
    destruct (row !! Z.to_nat (wrap (width b) p.2)) as [c|] eqn:Hc; [done|].
    apply lookup_ge_None in Hc. rewrite Hlr in Hc.
    apply andb_true_iff in Hy as [Hy1%Z.leb_le Hy2%Z.ltb_lt].
    unfold wrap in Hc. destruct (Z.ltb_spec p.2 0); lia.
  - apply lookup_ge_None in Hrow.
    apply andb_true_iff in Hx as [Hx1%Z.leb_le Hx2%Z.ltb_lt].
    unfold wrap in Hrow. destruct (Z.ltb_spec p.1 0); lia.
Qed.

Lemma get_counts_negative_from_the_end_witness :
  _get corner_tile (-4, -1) = Ok (cell corner_tile (0, 3)).
Proof.
  apply (get_counts_negative_from_the_end corner_tile (-4, -1)).
  - apply board_of_shaped; [reflexivity|repeat constructor].
  - simpl; lia.
  - simpl; lia.
Defined.

(** X3: for every direction vector, unit or not, [_compact] on a square
    board returns and moves tiles only: the board keeps its shape, and
    the sum over the cells of any weight of a cell is unchanged, so the
    number of tiles, the sum of their values and the number of tiles of
    each value are.  It returns false only with the board as it was, and
    returns true exactly when some tile had an empty cell of the board
    one step along the direction. *)
Theorem compact_moves_tiles_only (fuel : nat) (b : Board) (d : pos) :
  shaped b -> square b -> width b < Z.of_nat fuel ->
  exists b' ch,
    _compact fuel b d = Ok (b', ch) ∧
    shaped b' ∧ width b' = width b ∧ height b' = height b ∧
    (forall w, weight w b' = weight w b) ∧
    (ch = false -> b' = b) ∧
    (ch = true <-> ¬ all_stuck b d).
Proof.
  intros Hsh Hsq Hfuel.
  destruct (compact_any d fuel b Hsh Hsq Hfuel)
    as (b' & ch & Hrun & Hsh' & Hw & Hh & _ & Hno & Hyes).
  exists b', ch. split_and!; try done.
  - intros w. by apply (compact_weight w d fuel b Hsh Hsq Hfuel b' ch).
  - intros Hch. by destruct (Hno Hch).
  - split; [done|]. intros Hn. destruct ch; [done|].
    by destruct (Hno eq_refl).
Qed.

Lemma compact_moves_tiles_only_witness :
  exists b' ch,
    _compact 5 row_of_twos (2, 3) = Ok (b', ch) ∧
    shaped b' ∧ width b' = width row_of_twos ∧
    height b' = height row_of_twos ∧
    (forall w, weight w b' = weight w row_of_twos) ∧
    (ch = false -> b' = row_of_twos) ∧
    (ch = true <-> ¬ all_stuck row_of_twos (2, 3)).
Proof.
  apply (compact_moves_tiles_only 5 row_of_twos (2, 3)).
  - apply board_of_shaped; [reflexivity|repeat constructor].
  - reflexivity.
  - simpl; lia.
Defined.

(** X4: along a unit direction [_compact] is idempotent: called on the
    board it returned, it returns that board again and reports no
    change. *)
Theorem compact_twice (fuel : nat) (b : Board) (d : pos) :
  unit_dir d -> shaped b -> square b -> width b < Z.of_nat fuel ->
  exists b' ch,
    _compact fuel b d = Ok (b', ch) ∧ _compact fuel b' d = Ok (b', false).
Proof.
  intros Hd Hsh Hsq Hfuel.
  destruct (compact_any d fuel b Hsh Hsq Hfuel)
    as (b' & ch & Hrun & Hsh' & Hw & Hh & _).
  destruct (compact_unit d Hd fuel b Hsh Hsq Hfuel)
    as (b'' & ch' & Hrun' & Hset & _).
  rewrite Hrun in Hrun'. injection Hrun' as <- <-.
  assert (square b') as Hsq' by (unfold square in *; congruence).
  assert (all_stuck b' d) as Hst.
  { apply settled_all_stuck; [done..|by rewrite Hw]. }
  destruct (compact_any d fuel b' Hsh' Hsq' ltac:(lia))
    as (b2 & ch2 & Hrun2 & _ & _ & _ & _ & Hno & Hyes).
  exists b', ch. split; [done|].
  destruct ch2; [by destruct (Hyes eq_refl)|].
  by destruct (Hno eq_refl) as [-> _].
Qed.

Lemma compact_twice_witness :
  exists b' ch,
    _compact 5 row_of_twos (1, 0) = Ok (b', ch) ∧
    _compact 5 b' (1, 0) = Ok (b', false).
Proof.
  apply (compact_twice 5 row_of_twos (1, 0)).
  - right; right; right; reflexivity.
  - apply board_of_shaped; [reflexivity|repeat constructor].
  - reflexivity.
  - simpl; lia.
Defined.

(** X5: [spawn] on a square board.  With no empty cell it returns
    [False] and leaves the board as it is.  Otherwise it returns [None]
    and writes exactly one cell, the empty cell [random.choice] picked
    among the empty cells in scan order: that cell holds a tile of value
    4 when [random.random() < 0.1] and of value 2 otherwise, and every
    other cell, so every tile that was on the board, is untouched. *)
Theorem spawn_writes_one_empty_cell (rnd : draws) (b : Board) :
  shaped b -> square b ->
  (empties b = [] -> spawn rnd b = Ok (b, PyBool false)) ∧
  (empties b ≠ [] ->
   exists b' p,
     spawn rnd b = Ok (b', PyNone) ∧
     p = random_choice rnd (empties b) ∧
     _is_valid b p = true ∧ cell b p = None ∧
     cell b' p = Some (mkTile (if below_tenth rnd then 4 else 2)) ∧
     (forall q, _is_valid b q = true -> q ≠ p -> cell b' q = cell b q) ∧
     shaped b' ∧ width b' = width b ∧ height b' = height b ∧
     count_tiles b' = S (count_tiles b)).
Proof.
  intros Hsh Hsq. split; [by apply spawn_spec|]. intros Hne.
  destruct (spawn_at rnd b Hsh Hsq Hne) as [Hin Hrun].
  apply in_empties in Hin as [Hv Hc].
  eexists _, _. split; [exact Hrun|].
  split_and!; try done.
  - by apply cell_put_eq.
  - intros q Hq Hne'. by apply cell_put_ne.
  - by apply put_shaped.
  - pose proof (count_put b Hsh Hsq _ (Some (mkTile (if below_tenth rnd
                                                      then 4 else 2))) Hv)
      as Hcnt.
    rewrite Hc in Hcnt. simpl in Hcnt. lia.
Qed.

Lemma spawn_writes_one_empty_cell_witness :
  (empties corner_tile = [] ->
   spawn (mkDraws 7 true) corner_tile = Ok (corner_tile, PyBool false)) ∧
  (empties corner_tile ≠ [] ->
   exists b' p,
     spawn (mkDraws 7 true) corner_tile = Ok (b', PyNone) ∧
     p = random_choice (mkDraws 7 true) (empties corner_tile) ∧
     _is_valid corner_tile p = true ∧ cell corner_tile p = None ∧
     cell b' p = Some (mkTile (if below_tenth (mkDraws 7 true)
                               then 4 else 2)) ∧
     (forall q, _is_valid corner_tile q = true -> q ≠ p ->
        cell b' q = cell corner_tile q) ∧
     shaped b' ∧ width b' = width corner_tile ∧
     height b' = height corner_tile ∧
     count_tiles b' = S (count_tiles corner_tile)).
Proof.
  apply (spawn_writes_one_empty_cell (mkDraws 7 true) corner_tile).
  - apply board_of_shaped; [reflexivity|repeat constructor].
  - reflexivity.
Defined.

(** X6: [move] called with the direction [(0, 0)] on a square board with
    at least one cell never returns: the merge walk steps from its start
    cell to the same cell again, so its loop condition holds for ever.
    Whatever the fuel, the loops use it up. *)
Theorem move_zero_direction_never_returns (fuel : nat) (rnd : draws)
    (b : Board) :
  shaped b -> square b -> 0 < width b ->
  move fuel rnd b (0, 0) = OutOfFuel.
Proof.
  intros Hsh Hsq Hpos. rewrite move_split. unfold move_steps.
  destruct (compact_still fuel b Hsh Hsq) as [-> | ->]; [|done].
  simpl. unfold merge_pass, _find_starts. simpl.
  unfold range. rewrite (seqZ_cons 0 (width b)) by done. simpl.
  change (- 0) with 0. change (0 * (height b - 1)) with 0.
  change (0 `max` 0) with 0.
  change (_move_position (0, 0) (0, 0)) with ((0, 0) : pos).
  rewrite (merge_while_still fuel b (0, 0) false Hsh Hsq); [done|].
  apply is_valid_spec. unfold square in Hsq. simpl. lia.
Qed.

Lemma move_zero_direction_never_returns_witness :
  move 1000 (mkDraws 0 false) corner_tile (0, 0) = OutOfFuel.
Proof.
  apply (move_zero_direction_never_returns 1000 (mkDraws 0 false)
           corner_tile).
  - apply board_of_shaped; [reflexivity|repeat constructor].
  - reflexivity.
  - simpl; lia.
Defined.

(** X7: in the program the module-level name [board] is bound to the
    instance the method is called on.  Then, on a square board,
    [check_game_over] returns, and returns true exactly when every cell
    is occupied and no tile has an orthogonal neighbour on the board
    that is empty or of equal value. *)
Theorem check_game_over_own_board (b : Board) :
  shaped b -> square b ->
  exists r, check_game_over b b = Ok r ∧ (r = true <-> game_over b).
Proof.
  intros Hsh Hsq.
  destruct (check_game_over_global b b Hsh Hsq) as [Ht Hf].
  rewrite check_game_over_scan in * by done.
  destruct (forallb (blocked_cell b) (scan (width b) (height b))).
  - exists true. split; [done|]. split; [intros _; by apply Ht|done].
  - exists false. split; [done|]. split; [done|].
    intros Hg. by destruct (proj1 Hf eq_refl).
Qed.

Lemma check_game_over_own_board_witness :
  exists r, check_game_over deadlock deadlock = Ok r ∧
            (r = true <-> game_over deadlock).
Proof.
  apply (check_game_over_own_board deadlock).
  - apply board_of_shaped; [reflexivity|repeat constructor].
  - reflexivity.
Defined.

(** X8: the tiles of a [move] along a unit direction on a square board
    keep the sum of their values through the slides and merges; the
    returned board differs in that sum from the given one by the tile
    [spawn] added: nothing when no tile could slide or merge, else 4
    when [random.random() < 0.1] and 2 otherwise. *)
Theorem move_adds_only_the_spawned_value (fuel : nat) (rnd : draws)
    (b : Board) (d : pos) :
  unit_dir d -> shaped b -> square b -> width b < Z.of_nat fuel ->
  exists b3 ch b',
    move_steps fuel b d = Ok (b3, ch) ∧ sum_values b3 = sum_values b ∧
    move fuel rnd b d = Ok b' ∧
    sum_values b' =
      sum_values b +
      (if idle b d then 0 else if below_tenth rnd then 4 else 2).
Proof.
  intros Hd Hsh Hsq Hfuel.
  destruct (move_outcome fuel b d Hd Hsh Hsq Hfuel)
    as (b3 & ch & Hrun & _ & _ & _ & Hwt & _).
  destruct (move_sound (fun _ => True) fuel rnd b d I I (fun _ _ => I)
              Hd Hsh Hsq Hfuel) as (b' & Hmove & _ & _ & _ & _ & Hsum & _).
  exists b3, ch, b'. split_and!; try done.
  apply (Hwt cell_value cell_value_neutral).
Qed.

Lemma move_adds_only_the_spawned_value_witness :
  exists b3 ch b',
    move_steps 5 row_of_twos (0, 1) = Ok (b3, ch) ∧
    sum_values b3 = sum_values row_of_twos ∧
    move 5 (mkDraws 3 true) row_of_twos (0, 1) = Ok b' ∧
    sum_values b' =
      sum_values row_of_twos +
      (if idle row_of_twos (0, 1) then 0
       else if below_tenth (mkDraws 3 true) then 4 else 2).
Proof.
  apply (move_adds_only_the_spawned_value 5 (mkDraws 3 true) row_of_twos
           (0, 1)).
  - right; left; reflexivity.
  - apply board_of_shaped; [reflexivity|repeat constructor].
  - reflexivity.
  - simpl; lia.
Defined.

(** X9: a [move] along a unit direction on a square board returns the
    board it was given exactly when no tile could slide along the
    direction and no two neighbours along it were equal; in every other
    case the returned board differs from the given one. *)
Theorem move_changes_unless_idle (fuel : nat) (rnd : draws) (b : Board)
    (d : pos) :
  unit_dir d -> shaped b -> square b -> width b < Z.of_nat fuel ->
  exists b', move fuel rnd b d = Ok b' ∧ (b' = b <-> idle b d = true).
Proof.
  intros Hd Hsh Hsq Hfuel.
  destruct (move_sound (fun _ => True) fuel rnd b d I I (fun _ _ => I)
              Hd Hsh Hsq Hfuel) as (b' & Hmove & _ & _ & _ & _ & _ & Hiff & _).
  by exists b'.
Qed.

Lemma move_changes_unless_idle_witness :
  exists b', move 5 (mkDraws 3 true) row_of_twos (0, 1) = Ok b' ∧
             (b' = row_of_twos <-> idle row_of_twos (0, 1) = true).
Proof.
  apply (move_changes_unless_idle 5 (mkDraws 3 true) row_of_twos (0, 1)).
  - right; left; reflexivity.
  - apply board_of_shaped; [reflexivity|repeat constructor].
  - reflexivity.
  - simpl; lia.
Defined.

(** X10: if every tile on a square board is a power of two, at least 2,
    then so is every tile on the board a [move] along a unit direction
    returns. *)
Theorem move_keeps_powers_of_two (fuel : nat) (rnd : draws) (b : Board)
    (d : pos) :
  unit_dir d -> shaped b -> square b -> width b < Z.of_nat fuel ->
  all_tiles power_of_two b ->
  exists b', move fuel rnd b d = Ok b' ∧ all_tiles power_of_two b'.
Proof.
  intros Hd Hsh Hsq Hfuel Hall.
  destruct (move_sound power_of_two fuel rnd b d power_of_two_2
              power_of_two_4 power_of_two_double Hd Hsh Hsq Hfuel)
    as (b' & Hmove & _ & _ & _ & Hkeep & _).
  exists b'. auto.
Qed.

Lemma move_keeps_powers_of_two_witness :
  exists b', move 5 (mkDraws 3 true) row_of_twos (0, 1) = Ok b' ∧
             all_tiles power_of_two b'.
Proof.
  apply (move_keeps_powers_of_two 5 (mkDraws 3 true) row_of_twos (0, 1)).
  - right; left; reflexivity.
  - apply board_of_shaped; [reflexivity|repeat constructor].
  - reflexivity.
  - simpl; lia.
  - intros p t Hp Hc. apply is_valid_spec in Hp. simpl in Hp.
    destruct p as [x y]. simpl in Hp.
    assert (In x [0; 1; 2; 3]) as Hx by (simpl; lia).
    assert (In y [0; 1; 2; 3]) as Hy by (simpl; lia).
    simpl in Hx, Hy.
    destruct Hx as [<- | [<- | [<- | [<- | []]]]];
      destruct Hy as [<- | [<- | [<- | [<- | []]]]];
      vm_compute in Hc; try discriminate; injection Hc as <-;
      apply power_of_two_2.
Defined.



(** X12: the board the program starts with, [Board(4, 4)] after two
    calls of [spawn], is a 4 by 4 board with exactly two tiles, each of
    value 2 or 4, whatever the random draws. *)
Theorem new_board_has_two_tiles (rnd1 rnd2 : draws) :
  exists b, new_board rnd1 rnd2 = Ok b ∧
    shaped b ∧ width b = 4 ∧ height b = 4 ∧
    count_tiles b = 2%nat ∧
    all_tiles (fun v => v = 2 ∨ v = 4) b.
Proof.
  destruct (new_board_facts rnd1 rnd2)
    as (b & Hrun & Hsh & Hw & Hh & Hcnt & Hall & _).
  by exists b.
Qed.



(** X14: on a board whose [width] and [height] differ, [check_game_over]
    never returns true: it returns false, or a subscript leaves the
    lists and the call raises [IndexError]. *)
Theorem check_game_over_not_square (b self : Board) :
  shaped b -> 0 < width b -> 0 < height b -> width b ≠ height b ->
  check_game_over b self = Ok false ∨
  check_game_over b self = Raise IndexError.
Proof.
  intros Hsh Hw Hh Hne. unfold check_game_over.
  match goal with
  | |- context [for_return (range (width b)) ?f] =>
      set (outer := f);
      destruct (for_return (range (width b)) outer) as [r|[]|] eqn:Hrun
  end; cbn [mbind result_bind]; [|by right|].
  - apply for_return_inv in Hrun. destruct r as [[|]|]; [|by left|].
    + exfalso. destruct Hrun as (x & _ & Hx). unfold outer in Hx.
      apply for_return_inv in Hx as (y & _ & Hy).
      destruct (_get b (x, y)) as [[t|]| |]; cbn [mbind result_bind] in Hy;
        try done.
      apply for_return_inv in Hy as (direction & _ & Hd).
      destruct (negb (_is_valid b (_move_position (x, y) direction)));
        [done|].
      destruct (_get b (_move_position (x, y) direction)) as [[nt|]| |];
        cbn [mbind result_bind] in Hd; try done.
      by destruct (value t =? value nt).
    + exfalso. destruct (bad_position b Hw Hh Hne) as ([x y] & Hv & Hout).
      pose proof Hv as Hv'. apply is_valid_spec in Hv'. simpl in Hv', Hout.
      assert (outer x = Ok None) as Hx by (apply Hrun, in_range; lia).
      unfold outer in Hx.
      pose proof (for_return_inv _ _ _ Hx y) as Hy. cbv beta in Hy.
      rewrite get_out_of_shape in Hy; [|done|simpl; lia..].
      cbn [mbind result_bind] in Hy.
      by specialize (Hy ltac:(apply in_range; lia)).
  - exfalso. revert Hrun. apply for_return_ends. intros x _.
    unfold outer. apply for_return_ends. intros y _.
    pose proof (get_ends_always b (x, y)) as Hg.
    destruct (_get b (x, y)) as [[t|]| |]; cbn [mbind result_bind];
      try done.
    apply for_return_ends. intros direction _.
    destruct (negb (_is_valid b (_move_position (x, y) direction)));
      [done|].
    pose proof (get_ends_always b (_move_position (x, y) direction)) as Hg'.
    destruct (_get b (_move_position (x, y) direction)) as [[nt|]| |];
      cbn [mbind result_bind]; try done.
    by destruct (value t =? value nt).
Qed.

Lemma check_game_over_not_square_witness :
  check_game_over (Board_init 2 3) (Board_init 2 3) = Ok false ∨
  check_game_over (Board_init 2 3) (Board_init 2 3) = Raise IndexError.
Proof.
  apply (check_game_over_not_square (Board_init 2 3) (Board_init 2 3)).
  - apply Board_init_shaped.
  - simpl; lia.
  - simpl; lia.
  - discriminate.
Defined.
